(** * The pre-signed transaction pool of the reaction-time game

    A shallow embedding of the single-player page (the 'use client'
    component [SinglePlayer]): the module-level [preSignedPool] with the
    gas parameters, the batch signer [preSignBatch], the consumer
    [getNextTransaction], the mount effect [init] and the click handler
    [handleClick], followed by the properties of the pool.

    Conventions of the embedding.
    - JavaScript numbers that only ever hold array indexes, counts and
      nonces are [nat]; [bigint]s are [N]; [performance.now()] readings
      are rationals ([Q]) and their differences are taken exactly;
      [Math.round] is rounding half up.  [Math.random()] and the delay
      [startRound] computes from it are doubles ([float], the kernel's
      binary64 numbers), so that the delay is rounded as the code rounds
      it.
    - The collaborators are opaque: [account.address] and the bytes
      [client.signTransaction] yields for a transaction request are section
      variables; whether a remote call or a signing promise rejects is
      chosen by the environment and comes with the event that settles it.
    - An [async] function is cut at its [await]s: the part that runs
      synchronously at the call, and the continuation that runs when the
      awaited promise settles.  Promise objects created by the refill are
      kept in the state with their status.
    - Events are the tasks of the page: a mount of the component, a
      click, an animation frame, the settlement of a refill, the
      settlement of a broadcast.  A handler runs in the closure of the
      latest render.  The continuation of [preSignBatch] and the [then]
      callback of the refill are consecutive microtasks, so they form one
      event.
    - The component is mounted when the page is loaded and again whenever
      the player leaves the page by its BACK link and returns; in
      development React's strict mode runs the mount effect a second time
      right after the first.  The pool and the gas parameters are
      module-level variables, so they outlive the component; its state and
      refs start afresh.  A mount with its effect is one event: until the
      effect has set [isReady] every click returns at once, and what may
      run between its [await]s, the settlement of a refill, reads and
      writes nothing the effect writes or reads.  Two mount effects whose
      [await]s overlap are taken one after the other, and the callbacks an
      unmounted instance left behind, which can reach the page no more,
      are dropped. *)

From Stdlib Require Import List Arith Bool String Ascii NArith ZArith QArith Lia.
From Stdlib Require Import Qround HexadecimalString HexadecimalNat Sorted Lqa.
From Stdlib Require Import Floats.
Import ListNotations.
Open Scope nat_scope.

(** ** Values *)

(** The template-literal type [`0x${string}`]. *)
Definition Hex := string.

Inductive TxType := legacy.

(** The object literal [txData] handed to [client.signTransaction]. *)
Record TxData := mkTxData {
  to : Hex;
  value : N;
  data : Hex;
  nonce : nat;
  txGasPrice : N;   (* field [gasPrice] *)
  gas : N;
  type : TxType
}.

Inductive GameState := IDLE | WAITING | READY | CLICKED | FINISHED | TOO_EARLY.

Record Result := mkResult {
  attempt : nat;
  reactionTime : Z;
  txTime : Z;
  totalTime : Z;
  failed : bool
}.

(** [preSignedPool]. *)
Record Pool := mkPool {
  transactions : list Hex;
  currentIndex : nat;
  baseNonce : nat;
  hasTriggeredRefill : bool
}.

(** What a [throw] or a rejected promise carries. *)
Inductive Error :=
| NoPreSignedTransactions   (* new Error('No pre-signed transactions available') *)
| SigningRejected
| QueryRejected
| BroadcastRejected.

(** The lines written to the console. *)
Inductive ConsoleLine :=
| LogGasEstimated (gasLimit : N)
| LogPreSigned (batchSize poolSize : nat)
| LogRefilling (used : nat)
| ErrFailedToInitialize (e : Error)
| ErrTransactionFailed (e : Error)
| UnhandledRejection (e : Error).

Inductive PromiseState := Pending | Fulfilled | Rejected.

(** The promise returned by the [preSignBatch] call of a refill: the
    requests it handed to the signer when it was called, and its status. *)
Record RefillPromise := mkRefill {
  requests : list TxData;
  rBatchSize : nat;      (* [batchSize], which its continuation logs *)
  settled : PromiseState
}.

(** The broadcast awaited by [handleClick], with what its continuation
    closes over. *)
Record Broadcast := mkBroadcast {
  bRound : nat;          (* [currentRound] of the render that handled the click *)
  bReactionTime : Z;
  bTxStart : Q;
  bSignedTx : option Hex (* [undefined] is [None] *)
}.

(** The pending [requestAnimationFrame(checkTime)] of [startRound]. *)
Record Frame := mkFrame {
  startTime : Q;
  delay : float
}.

(** Module-level variables, component state, refs, pending callbacks and the
    console. *)
Record World := mkWorld {
  preSignedPool : Pool;
  gasPrice : N;
  gasLimit : N;
  gameState : GameState;
  currentRound : nat;
  results : list Result;
  isReady : bool;
  greenTimeRef : Q;
  clickTimeRef : Q;
  animFrame : option Frame;
  refills : list RefillPromise;   (* newest first *)
  inFlightTx : option Broadcast;
  console : list ConsoleLine      (* newest first *)
}.

Definition ADJUSTMENT : Z := 100.

(** The state when the module has been loaded and the component rendered
    for the first time. *)
Definition World0 : World :=
  {| preSignedPool := {| transactions := []; currentIndex := 0;
                         baseNonce := 0; hasTriggeredRefill := false |};
     gasPrice := 0%N;
     gasLimit := 21000%N;
     gameState := IDLE;
     currentRound := 0;
     results := [];
     isReady := false;
     greenTimeRef := 0%Q;
     clickTimeRef := 0%Q;
     animFrame := None;
     refills := [];
     inFlightTx := None;
     console := [] |}.

(** ** Assignments *)

Definition setPool (p : Pool) (w : World) : World :=
  mkWorld p (gasPrice w) (gasLimit w) (gameState w) (currentRound w)
    (results w) (isReady w) (greenTimeRef w) (clickTimeRef w) (animFrame w)
    (refills w) (inFlightTx w) (console w).

Definition setGasPrice (g : N) (w : World) : World :=
  mkWorld (preSignedPool w) g (gasLimit w) (gameState w) (currentRound w)
    (results w) (isReady w) (greenTimeRef w) (clickTimeRef w) (animFrame w)
    (refills w) (inFlightTx w) (console w).

Definition setGasLimit (g : N) (w : World) : World :=
  mkWorld (preSignedPool w) (gasPrice w) g (gameState w) (currentRound w)
    (results w) (isReady w) (greenTimeRef w) (clickTimeRef w) (animFrame w)
    (refills w) (inFlightTx w) (console w).

Definition setGameState (s : GameState) (w : World) : World :=
  mkWorld (preSignedPool w) (gasPrice w) (gasLimit w) s (currentRound w)
    (results w) (isReady w) (greenTimeRef w) (clickTimeRef w) (animFrame w)
    (refills w) (inFlightTx w) (console w).

Definition setCurrentRound (f : nat -> nat) (w : World) : World :=
  mkWorld (preSignedPool w) (gasPrice w) (gasLimit w) (gameState w)
    (f (currentRound w)) (results w) (isReady w) (greenTimeRef w)
    (clickTimeRef w) (animFrame w) (refills w) (inFlightTx w) (console w).

Definition setResults (f : list Result -> list Result) (w : World) : World :=
  mkWorld (preSignedPool w) (gasPrice w) (gasLimit w) (gameState w)
    (currentRound w) (f (results w)) (isReady w) (greenTimeRef w)
    (clickTimeRef w) (animFrame w) (refills w) (inFlightTx w) (console w).

Definition setIsReady (b : bool) (w : World) : World :=
  mkWorld (preSignedPool w) (gasPrice w) (gasLimit w) (gameState w)
    (currentRound w) (results w) b (greenTimeRef w) (clickTimeRef w)
    (animFrame w) (refills w) (inFlightTx w) (console w).

Definition setGreenTime (t : Q) (w : World) : World :=
  mkWorld (preSignedPool w) (gasPrice w) (gasLimit w) (gameState w)
    (currentRound w) (results w) (isReady w) t (clickTimeRef w)
    (animFrame w) (refills w) (inFlightTx w) (console w).

Definition setClickTime (t : Q) (w : World) : World :=
  mkWorld (preSignedPool w) (gasPrice w) (gasLimit w) (gameState w)
    (currentRound w) (results w) (isReady w) (greenTimeRef w) t
    (animFrame w) (refills w) (inFlightTx w) (console w).

Definition setAnimFrame (f : option Frame) (w : World) : World :=
  mkWorld (preSignedPool w) (gasPrice w) (gasLimit w) (gameState w)
    (currentRound w) (results w) (isReady w) (greenTimeRef w)
    (clickTimeRef w) f (refills w) (inFlightTx w) (console w).

Definition setRefills (r : list RefillPromise) (w : World) : World :=
  mkWorld (preSignedPool w) (gasPrice w) (gasLimit w) (gameState w)
    (currentRound w) (results w) (isReady w) (greenTimeRef w)
    (clickTimeRef w) (animFrame w) r (inFlightTx w) (console w).

Definition setInFlightTx (b : option Broadcast) (w : World) : World :=
  mkWorld (preSignedPool w) (gasPrice w) (gasLimit w) (gameState w)
    (currentRound w) (results w) (isReady w) (greenTimeRef w)
    (clickTimeRef w) (animFrame w) (refills w) b (console w).

Definition consoleWrite (l : ConsoleLine) (w : World) : World :=
  mkWorld (preSignedPool w) (gasPrice w) (gasLimit w) (gameState w)
    (currentRound w) (results w) (isReady w) (greenTimeRef w)
    (clickTimeRef w) (animFrame w) (refills w) (inFlightTx w)
    (l :: console w).

(** The first render of a new instance of the component: [useState] and
    [useRef] give their initial values, no callback of this instance is
    pending; the module-level variables, the refill promises and the
    console are those of the page. *)
Definition SinglePlayer (w : World) : World :=
  mkWorld (preSignedPool w) (gasPrice w) (gasLimit w) IDLE 0 [] false 0%Q 0%Q
    None (refills w) None (console w).

(** ** Library functions of the language *)

(** [Math.round]: the nearest integer, halves going up. *)
Definition Math_round (x : Q) : Z := Qfloor (x + (1 # 2)).

(** The rational a finite double with sign [s], mantissa [m] and exponent
    [e] stands for. *)
Definition finiteValue (s : bool) (m : positive) (e : Z) : Q :=
  (inject_Z (if s then Zneg m else Zpos m) * Qpower 2 e)%Q.


(** [x >= d] for a time difference [x] and a double [d]; a comparison with
    NaN is false. *)
Definition Number_ge (x : Q) (d : float) : bool :=
  match Prim2SF d with
  | S754_zero _ => Qle_bool 0 x
  | S754_finite s m e => Qle_bool (finiteValue s m e) x
  | S754_infinity s => s
  | S754_nan => false
  end.

(** [n.toString(16)] for a non-negative integer. *)
Definition toString16 (n : nat) : string :=
  NilZero.string_of_uint (Nat.to_hex_uint n).

Fixpoint repeatChar (c : ascii) (k : nat) : string :=
  match k with
  | O => EmptyString
  | S k' => String c (repeatChar c k')
  end.

(** [s.padStart(targetLength, c)] for a one-character pad. *)
Definition padStart (targetLength : nat) (c : ascii) (s : string) : string :=
  (repeatChar c (targetLength - String.length s) ++ s)%string.

(** [Promise.all]: the values in order, or a rejection when some promise
    rejects (of the first in the list here; the rejections of one batch
    all carry the same error). *)
Fixpoint Promise_all {A} (ps : list (Error + A)) : Error + list A :=
  match ps with
  | [] => inr []
  | inl e :: _ => inl e
  | inr a :: ps' =>
      match Promise_all ps' with
      | inl e => inl e
      | inr l => inr (a :: l)
      end
  end.

(** [Promise.all] of the two startup queries. *)
Definition Promise_all2 {A B} (p : Error + A) (q : Error + B) : Error + (A * B) :=
  match p, q with
  | inr a, inr b => inr (a, b)
  | inl e, _ => inl e
  | _, inl e => inl e
  end.

(** ** Assignments to the fields of the pool *)

Definition setTransactions (l : list Hex) (p : Pool) : Pool :=
  mkPool l (currentIndex p) (baseNonce p) (hasTriggeredRefill p).

Definition setCurrentIndex (i : nat) (p : Pool) : Pool :=
  mkPool (transactions p) i (baseNonce p) (hasTriggeredRefill p).

Definition setBaseNonce (n : nat) (p : Pool) : Pool :=
  mkPool (transactions p) (currentIndex p) n (hasTriggeredRefill p).

Definition setHasTriggeredRefill (b : bool) (p : Pool) : Pool :=
  mkPool (transactions p) (currentIndex p) (baseNonce p) b.

Definition updPool (f : Pool -> Pool) (w : World) : World :=
  setPool (f (preSignedPool w)) w.

(** Reading a field of a state built by assignments. *)
Ltac simpl_world :=
  cbn [preSignedPool gasPrice gasLimit gameState currentRound results isReady
       greenTimeRef clickTimeRef animFrame refills inFlightTx console
       setPool setGasPrice setGasLimit setGameState setCurrentRound setResults
       setIsReady setGreenTime setClickTime setAnimFrame setRefills
       setInFlightTx consoleWrite updPool
       transactions currentIndex baseNonce hasTriggeredRefill
       setTransactions setCurrentIndex setBaseNonce setHasTriggeredRefill] in *.

(** ** What the environment supplies *)

(** The clock and random readings taken while a handler runs. *)
Record Env := mkEnv {
  eNow : Q;        (* [performance.now()] at the top of the handler or continuation *)
  eTxStart : Q;    (* [performance.now()] read into [txStart] *)
  eStartTime : Q;  (* [performance.now()] read by [startRound] *)
  eRandom : float  (* [Math.random()] read by [startRound] *)
}.

(** The outcomes of the remote calls of [init]; [oSignRejects i] tells
    whether the [i]-th signing promise of the priming batch rejects. *)
Record InitOutcome := mkInitOutcome {
  oTransactionCount : Error + nat;
  oGasPrice : Error + N;
  oEstimateGas : Error + N;
  oSignRejects : nat -> bool
}.

Inductive Event :=
| Click (env : Env)
| AnimationFrame (now : Q)
| RefillSettled (k : nat) (rejects : nat -> bool)
| BroadcastSettled (outcome : Error + unit) (env : Env)
| Mount (o : InitOutcome).

(** Replace the status of the [k]-th refill promise. *)
Fixpoint markSettled (k : nat) (s : PromiseState) (l : list RefillPromise)
  : list RefillPromise :=
  match l, k with
  | [], _ => []
  | p :: l', O => mkRefill (requests p) (rBatchSize p) s :: l'
  | p :: l', S k' => p :: markSettled k' s l'
  end.

(** ** The navigation bar *)

(** [s.slice(0, k)] for a string [s]. *)
Definition sliceTo (k : nat) (s : string) : string := substring 0 k s.

(** [s.slice(-k)]: the last [k] characters, all of [s] when it is
    shorter. *)
Definition sliceLast (k : nat) (s : string) : string :=
  substring (String.length s - k) k s.

Definition shortenAddress (addr : string) : string :=
  (sliceTo 6 addr ++ "..." ++ sliceLast 4 addr)%string.

(** ** A signer to run the program with

    The examples run the program with this address and this stand-in for
    the signer: the nonce in hexadecimal followed by the payload. *)

Definition sampleAddress : Hex := "0x5a17e0000000000000000000000000000000cafe"%string.

Definition sampleSign (tx : TxData) : Hex :=
  ("0xf8" ++ padStart 2 "0" (toString16 (nonce tx)) ++ data tx)%string.

(** ** The program *)

Section Program.

(** [account.address] of the burner wallet. *)
Variable address : Hex.

(** The signed bytes [client.signTransaction] resolves to when it does
    not reject. *)
Variable signTransaction : TxData -> Hex.

(** The [txData] literal built for index [i] of a batch. *)
Definition txData (w : World) (startNonce i : nat) : TxData :=
  {| to := address;
     value := 0%N;
     data := ("0x" ++ padStart 2 "0" (toString16 (i + 1)))%string;
     nonce := startNonce + i;
     txGasPrice := gasPrice w;
     gas := gasLimit w;
     type := legacy |}.

(** [preSignBatch] up to its [await]: [Array.from] runs the callback for
    [i = 0 .. batchSize-1], each building its [txData] and calling the
    signer. *)
Definition preSignBatch_call (startNonce batchSize : nat) (w : World)
  : list TxData :=
  map (txData w startNonce) (seq 0 batchSize).

(** The signing promises once settled. *)
Definition signingPromises (rejects : nat -> bool) (txs : list TxData)
  : list (Error + Hex) :=
  map (fun it : nat * TxData =>
         if rejects (fst it) then inl SigningRejected
         else inr (signTransaction (snd it)))
      (combine (seq 0 (List.length txs)) txs).

(** [preSignBatch] from its [await] on: [inl] is the rejection of the
    promise it returned. *)
Definition preSignBatch_resume (batchSize : nat) (txs : list TxData)
    (rejects : nat -> bool) (w : World) : Error + World :=
  match Promise_all (signingPromises rejects txs) with
  | inl e => inl e
  | inr newTransactions =>
      let w :=
        updPool (fun p => setTransactions (transactions p ++ newTransactions) p) w in
      inr (consoleWrite
             (LogPreSigned batchSize (List.length (transactions (preSignedPool w)))) w)
  end.

(** [getNextTransaction]: [inl] is the exception thrown. *)
Definition getNextTransaction (w : World) : Error + (option Hex * World) :=
  let pool := preSignedPool w in
  if List.length (transactions pool) <=? currentIndex pool then
    inl NoPreSignedTransactions
  else
    let tx := nth_error (transactions pool) (currentIndex pool) in
    let w := updPool (fun p => setCurrentIndex (currentIndex p + 1) p) w in
    let w :=
      if (currentIndex (preSignedPool w) mod 5 =? 0)
         && negb (hasTriggeredRefill (preSignedPool w))
      then
        let w := consoleWrite (LogRefilling (currentIndex (preSignedPool w))) w in
        let w := updPool (setHasTriggeredRefill true) w in
        let nextNonce :=
          baseNonce (preSignedPool w) + List.length (transactions (preSignedPool w)) in
        setRefills (mkRefill (preSignBatch_call nextNonce 10 w) 10 Pending
                      :: refills w) w
      else w in
    inr (tx, w).

(** The refill promise [k] settles: [preSignBatch] resumes and, when it
    fulfils, the [then] callback runs.  When it rejects, the promise [then]
    returned rejects too; nothing handles it, and the browser reports
    it. *)
Definition refillSettled (k : nat) (rejects : nat -> bool) (w : World) : World :=
  match nth_error (refills w) k with
  | Some p =>
      match settled p with
      | Pending =>
          match preSignBatch_resume (rBatchSize p) (requests p) rejects w with
          | inr w =>
              let w := updPool (setHasTriggeredRefill false) w in
              setRefills (markSettled k Fulfilled (refills w)) w
          | inl e =>
              let w := consoleWrite (UnhandledRejection e) w in
              setRefills (markSettled k Rejected (refills w)) w
          end
      | _ => w
      end
  | None => w
  end.

(** The mount effect. *)
Definition init (o : InitOutcome) (w : World) : World :=
  match Promise_all2 (oTransactionCount o) (oGasPrice o) with
  | inl error => consoleWrite (ErrFailedToInitialize error) w
  | inr (nonce, gas) =>
      let w := setGasPrice gas w in
      let w := updPool (setBaseNonce nonce) w in
      match oEstimateGas o with
      | inl error => consoleWrite (ErrFailedToInitialize error) w
      | inr estimatedGas =>
          let w := setGasLimit estimatedGas w in
          let w := consoleWrite (LogGasEstimated (gasLimit w)) w in
          match preSignBatch_resume 10 (preSignBatch_call nonce 10 w)
                  (oSignRejects o) w with
          | inl error => consoleWrite (ErrFailedToInitialize error) w
          | inr w => setIsReady true w
          end
      end
  end.

(** [timeoutRef] is never assigned, so only the animation frame is
    cancelled. *)
Definition clearTimers (w : World) : World := setAnimFrame None w.

Definition startRound (env : Env) (w : World) : World :=
  let w := setGameState WAITING w in
  let w := clearTimers w in
  let delay := (1000 + eRandom env * 4000)%float in
  setAnimFrame (Some (mkFrame (eStartTime env) delay)) w.

(** The animation-frame callback of [startRound]. *)
Definition checkTime (now : Q) (w : World) : World :=
  match animFrame w with
  | Some f =>
      if Number_ge (now - startTime f) (delay f) then
        setAnimFrame None (setGreenTime now (setGameState READY w))
      else w
  | None => w
  end.

(** [handleClick] up to its [await]. *)
Definition handleClick (env : Env) (w : World) : World :=
  if negb (isReady w) then w
  else
    let now := eNow env in
    match gameState w with
    | IDLE | FINISHED | TOO_EARLY =>
        let w := setCurrentRound (fun _ => 1) w in
        let w := setResults (fun _ => []) w in
        startRound env w
    | WAITING =>
        let w := clearTimers w in
        let w := setGameState TOO_EARLY w in
        let w := setCurrentRound (fun _ => 0) w in
        setResults (fun _ => []) w
    | READY =>
        let currentRound := currentRound w in
        let w := setClickTime now w in
        let reactionTime := (Math_round (now - greenTimeRef w) - ADJUSTMENT)%Z in
        let w := setGameState CLICKED w in
        match getNextTransaction w with
        | inr (signedTx, w) =>
            setInFlightTx
              (Some (mkBroadcast currentRound reactionTime (eTxStart env) signedTx)) w
        | inl error =>
            let w := consoleWrite (ErrTransactionFailed error) w in
            let result := mkResult currentRound reactionTime 0 reactionTime true in
            let w := setResults (fun prev => prev ++ [result]) w in
            if 5 <=? currentRound then setGameState FINISHED w
            else startRound env (setCurrentRound (fun prev => prev + 1) w)
        end
    | CLICKED => w
    end.

(** [handleClick] from its [await] on, when the broadcast settles. *)
Definition broadcastSettled (outcome : Error + unit) (env : Env) (w : World)
  : World :=
  match inFlightTx w with
  | None => w
  | Some b =>
      let currentRound := bRound b in
      let reactionTime := bReactionTime b in
      let w := setInFlightTx None w in
      match outcome with
      | inr _ =>
          let txTime := Math_round (eNow env - bTxStart b) in
          let result :=
            mkResult currentRound reactionTime txTime (reactionTime + txTime) false in
          let w := setResults (fun prev => prev ++ [result]) w in
          if 5 <=? currentRound then setGameState FINISHED w
          else startRound env (setCurrentRound (fun prev => prev + 1) w)
      | inl error =>
          let w := consoleWrite (ErrTransactionFailed error) w in
          let result := mkResult currentRound reactionTime 0 reactionTime true in
          let w := setResults (fun prev => prev ++ [result]) w in
          if 5 <=? currentRound then setGameState FINISHED w
          else startRound env (setCurrentRound (fun prev => prev + 1) w)
      end
  end.

Definition getMessage (w : World) : string :=
  if negb (isReady w) then "INITIALIZING..."
  else
    match gameState w with
    | IDLE => "CLICK TO START"
    | WAITING => "WAIT..."
    | READY => "CLICK NOW!"
    | CLICKED => "RECORDING..."
    | FINISHED => "GAME COMPLETE!"
    | TOO_EARLY => "TOO EARLY! CLICK TO RETRY"
    end.

(** The summary of the results table; the times summed are integers, and
    their quotient is taken as a rational before [Math.round]. *)
Definition successfulResults (w : World) : list Result :=
  filter (fun r => negb (failed r)) (results w).

Definition avgReaction (w : World) : Z :=
  if 0 <? List.length (results w) then
    Math_round
      (inject_Z (fold_left (fun sum r => (sum + reactionTime r)%Z) (results w) 0%Z)
       / inject_Z (Z.of_nat (List.length (results w))))
  else 0%Z.

Definition avgTx (w : World) : Z :=
  if 0 <? List.length (successfulResults w) then
    Math_round
      (inject_Z (fold_left (fun sum r => (sum + txTime r)%Z) (successfulResults w) 0%Z)
       / inject_Z (Z.of_nat (List.length (successfulResults w))))
  else 0%Z.

Definition avgTotal (w : World) : Z := (avgReaction w + avgTx w)%Z.

(** ** The session *)

Definition step (ev : Event) (w : World) : World :=
  match ev with
  | Click env => handleClick env w
  | AnimationFrame now => checkTime now w
  | RefillSettled k rejects => refillSettled k rejects w
  | BroadcastSettled outcome env => broadcastSettled outcome env w
  | Mount o => init o (SinglePlayer w)
  end.

Fixpoint run (evs : list Event) (w : World) : World :=
  match evs with
  | [] => w
  | ev :: evs' => run evs' (step ev w)
  end.

Definition notMount (ev : Event) : Prop :=
  match ev with
  | Mount _ => False
  | _ => True
  end.

(** What is assumed of the ledger: the transaction count of the account
    never goes down, so the count a mount effect reads is not below the one
    read before, which is in [baseNonce]. *)
Definition countNotBelow (ev : Event) (w : World) : Prop :=
  match ev with
  | Mount o =>
      match oTransactionCount o with
      | inr count => baseNonce (preSignedPool w) <= count
      | inl _ => True
      end
  | _ => True
  end.

(** The states of a page load: the component is mounted, then events
    arrive in any order, further mounts among them. *)
Inductive Reachable : World -> Prop :=
| reach_mount : forall o, Reachable (init o World0)
| reach_step : forall ev w,
    Reachable w -> countNotBelow ev w -> Reachable (step ev w).

(** The states of a page load before the component is mounted a second
    time. *)
Inductive FirstMount : World -> Prop :=
| first_mount : forall o, FirstMount (init o World0)
| first_step : forall ev w,
    FirstMount w -> notMount ev -> FirstMount (step ev w).

(** [n] calls of [getNextTransaction] in a row: the values returned, the
    state after the last call that returned, and the exception if one
    was thrown. *)
Fixpoint takeMany (n : nat) (w : World) : list (option Hex) * World * option Error :=
  match n with
  | O => ([], w, None)
  | S n' =>
      match getNextTransaction w with
      | inl e => ([], w, Some e)
      | inr (tx, w1) =>
          let '(txs, w2, e) := takeMany n' w1 in (tx :: txs, w2, e)
      end
  end.

(** ** Notions the properties are stated with *)

(** Reading a hexadecimal string back, leading zeros allowed. *)
Definition parseHex (s : string) : option nat :=
  option_map Nat.of_hex_uint (NilZero.uint_of_string s).

(** The state a fulfilled [preSignBatch] leaves. *)
Definition appended (batchSize : nat) (txs : list TxData) (w : World) : World :=
  consoleWrite
    (LogPreSigned batchSize (List.length (transactions (preSignedPool w) ++ map signTransaction txs)))
    (updPool (fun p => setTransactions (transactions p ++ map signTransaction txs) p) w).

(** The test that starts a refill, on the state before the call. *)
Definition refillDue (w : World) : bool :=
  ((currentIndex (preSignedPool w) + 1) mod 5 =? 0)
  && negb (hasTriggeredRefill (preSignedPool w)).

(** The promise a refill started in [w] creates. *)
Definition newRefill (w : World) : RefillPromise :=
  mkRefill
    (preSignBatch_call
       (baseNonce (preSignedPool w) + List.length (transactions (preSignedPool w)))
       10 w)
    10 Pending.

(** The state [getNextTransaction] leaves when it returns. *)
Definition taken (w : World) : World :=
  let w1 := updPool (fun p => setCurrentIndex (currentIndex p + 1) p) w in
  if refillDue w then
    setRefills (newRefill w :: refills w)
      (updPool (setHasTriggeredRefill true)
         (consoleWrite (LogRefilling (currentIndex (preSignedPool w) + 1)) w1))
  else w1.

(** The [txData] literal, with the gas parameters it reads made
    explicit. *)
Definition request (gp gl : N) (startNonce i : nat) : TxData :=
  mkTxData address 0%N ("0x" ++ padStart 2 "0" (toString16 (i + 1)))%string
    (startNonce + i) gp gl legacy.

(** The request behind the entry at index [i] of a pool primed and
    refilled in batches of ten from [base]: index [i mod 10] of the batch
    that starts at [base + 10 * (i / 10)]. *)
Definition entryRequest (gp gl : N) (base i : nat) : TxData :=
  request gp gl (base + 10 * (i / 10)) (i mod 10).

(** What the signer returned for it. *)
Definition entry (gp gl : N) (base i : nat) : Hex :=
  signTransaction (entryRequest gp gl base i).

(** The first nonce a refill asked the signer for. *)
Definition refillStart (p : RefillPromise) : nat :=
  hd 0 (map nonce (requests p)).

(** Newer refills start at least a batch above older ones. *)
Definition above (a b : nat) : Prop := b + 10 <= a.

Record Invariant (pool : Pool) (gp gl : N) (rs : list RefillPromise) : Prop := {
  inv_cursor :
    currentIndex pool <= List.length (transactions pool);
  inv_batches :
    List.length (transactions pool) mod 10 = 0;
  inv_entries :
    transactions pool
    = map (entry gp gl (baseNonce pool)) (seq 0 (List.length (transactions pool)));
  inv_requests :
    Forall (fun p => requests p = map (request gp gl (refillStart p)) (seq 0 10)
                     /\ rBatchSize p = 10
                     /\ baseNonce pool + 10 <= refillStart p) rs;
  inv_fulfilled :
    Forall (fun p => settled p = Fulfilled ->
                     refillStart p + 10
                     <= baseNonce pool + List.length (transactions pool)) rs;
  inv_unsettled :
    Forall (fun p => settled p <> Fulfilled ->
                     refillStart p = baseNonce pool + List.length (transactions pool)
                     /\ hasTriggeredRefill pool = true) rs;
  inv_order :
    StronglySorted above (map refillStart rs);
  inv_guard :
    hasTriggeredRefill pool = false -> Forall (fun p => settled p = Fulfilled) rs
}.

Definition PoolInv (w : World) : Prop :=
  Invariant (preSignedPool w) (gasPrice w) (gasLimit w) (refills w).

(** A request of the kind [preSignBatch] builds: value zero, sent to the
    account itself. *)
Definition selfSend (tx : TxData) : Prop := to tx = address /\ value tx = 0%N.

(** What holds of the pool and its refills whatever was mounted: the
    cursor is inside the buffer, which grows by tens; every entry is a
    signed self-send; a refill asks for ten nonces in a row, at or below
    the top of the pool, a batch below it once fulfilled; only the newest
    refill can be unsettled, and the guard is set exactly then; without
    the guard a pool in use has six entries left. *)
Record RefillInv (pool : Pool) (rs : list RefillPromise) : Prop := {
  ri_cursor :
    currentIndex pool <= List.length (transactions pool);
  ri_batches :
    List.length (transactions pool) mod 10 = 0;
  ri_signed :
    Forall (fun e => exists req, e = signTransaction req /\ selfSend req)
      (transactions pool);
  ri_requests :
    Forall (fun p => map nonce (requests p) = seq (refillStart p) 10
                     /\ rBatchSize p = 10
                     /\ Forall selfSend (requests p)) rs;
  ri_fulfilled :
    Forall (fun p => settled p = Fulfilled ->
                     refillStart p + 10
                     <= baseNonce pool + List.length (transactions pool)) rs;
  ri_unsettled :
    Forall (fun p => settled p <> Fulfilled ->
                     refillStart p <= baseNonce pool + List.length (transactions pool)
                     /\ hasTriggeredRefill pool = true) rs;
  ri_order :
    StronglySorted above (map refillStart rs);
  ri_older :
    Forall (fun p => settled p = Fulfilled) (tl rs);
  ri_guard :
    hasTriggeredRefill pool = false -> Forall (fun p => settled p = Fulfilled) rs;
  ri_set :
    hasTriggeredRefill pool = true ->
    exists p, hd_error rs = Some p /\ settled p <> Fulfilled;
  ri_stock :
    hasTriggeredRefill pool = false ->
    transactions pool = []
    \/ currentIndex pool + 6 <= List.length (transactions pool)
}.

Definition SessionInv (w : World) : Prop :=
  RefillInv (preSignedPool w) (refills w).

(** A ready page has had a priming batch appended. *)
Definition ReadyInv (w : World) : Prop :=
  isReady w = true -> 10 <= List.length (transactions (preSignedPool w)).

(** The state a mount effect leaves in [w] when every query and signing
    succeeded. *)
Definition primedFrom (w : World) (N : nat) (gp gl : N.t) : World :=
  let w :=
    consoleWrite (LogGasEstimated gl)
      (setGasLimit gl (updPool (setBaseNonce N) (setGasPrice gp w))) in
  setIsReady true (appended 10 (preSignBatch_call N 10 w) w).

(** Whether a refill promise was rejected. *)
Definition isRejected (p : RefillPromise) : bool :=
  match settled p with
  | Rejected => true
  | _ => false
  end.

(** The state a mount effect leaves when every query and signing
    succeeded. *)
Definition primed (N : nat) (gp gl : N.t) : World :=
  let w :=
    consoleWrite (LogGasEstimated gl)
      (setGasLimit gl (updPool (setBaseNonce N) (setGasPrice gp World0))) in
  setIsReady true (appended 10 (preSignBatch_call N 10 w) w).

(** Whether a refill promise has not settled yet. *)
Definition isPending (p : RefillPromise) : bool :=
  match settled p with
  | Pending => true
  | _ => false
  end.

(** The guard is set and no refill promise is pending. *)
Definition stuck (w : World) : Prop :=
  hasTriggeredRefill (preSignedPool w) = true
  /\ Forall (fun p => settled p <> Pending) (refills w).

(** A frame is requested only while waiting for green, and a broadcast
    is awaited only after a valid click. *)
Definition RoundInv (w : World) : Prop :=
  (gameState w = WAITING \/ animFrame w = None)
  /\ (gameState w = CLICKED \/ inFlightTx w = None).

Definition notBroadcast (ev : Event) : Prop :=
  match ev with
  | BroadcastSettled _ _ => False
  | _ => True
  end.

(** While a round awaits its broadcast nothing else moves the game. *)
Definition awaiting (b : Broadcast) (w : World) (w' : World) : Prop :=
  gameState w' = CLICKED /\ inFlightTx w' = Some b /\ animFrame w' = None
  /\ currentRound w' = currentRound w /\ results w' = results w
  /\ isReady w' = isReady w.

Definition initFails (o : InitOutcome) : Prop :=
  (exists e, oTransactionCount o = inl e)
  \/ (exists e, oGasPrice o = inl e)
  \/ (exists e, oEstimateGas o = inl e)
  \/ (exists i, i < 10 /\ oSignRejects o i = true).

Definition isInitFailure (l : ConsoleLine) : bool :=
  match l with
  | ErrFailedToInitialize _ => true
  | _ => false
  end.

(** A result whose total is its two times added, its transaction time
    zero when the round failed. *)
Definition resultOk (r : Result) : Prop :=
  totalTime r = (reactionTime r + txTime r)%Z
  /\ (failed r = true -> txTime r = 0%Z).

(** The bookkeeping of a game: attempts are numbered from 1 in order, and
    the round counter is one ahead of the results while a round is
    played. *)
Definition GameInv (w : World) : Prop :=
  map attempt (results w) = seq 1 (List.length (results w))
  /\ Forall resultOk (results w)
  /\ match gameState w with
     | IDLE | TOO_EARLY =>
         currentRound w = 0 /\ results w = [] /\ inFlightTx w = None
     | WAITING | READY =>
         1 <= currentRound w <= 5
         /\ List.length (results w) + 1 = currentRound w
         /\ inFlightTx w = None
     | CLICKED =>
         1 <= currentRound w <= 5
         /\ List.length (results w) + 1 = currentRound w
         /\ exists b, inFlightTx w = Some b /\ bRound b = currentRound w
     | FINISHED =>
         currentRound w = 5 /\ List.length (results w) = 5
         /\ inFlightTx w = None
     end.

(** The broadcast awaited carries the entry taken last. *)
Definition FlightInv (w : World) : Prop :=
  forall b,
    inFlightTx w = Some b ->
    1 <= currentIndex (preSignedPool w)
    /\ bSignedTx b
       = nth_error (transactions (preSignedPool w)) (currentIndex (preSignedPool w) - 1).

End Program.

(** ** The program run with the sample signer *)

(** A mount effect that fetched nonce 7, gas price 3 and a gas estimate of
    21064, and signed its ten transactions. *)
Definition sampleOutcome : InitOutcome :=
  mkInitOutcome (inr 7) (inr 3%N) (inr 21064%N) (fun _ => false).

Definition sampleWorld : World := init sampleAddress sampleSign sampleOutcome World0.

(** The readings of a handler that runs at time [t]. *)
Definition at_ (t : Q) : Env := mkEnv t t t 0.5%float.

(** A round played at time [t]: the box turns green, the player clicks 250
    ms later, the broadcast is confirmed 4 ms after that. *)
Definition sampleRound (t : Q) : list Event :=
  [AnimationFrame (t + 3000); Click (at_ (t + 3250));
   BroadcastSettled (inr tt) (at_ (t + 3254))].

(** A game of five rounds; its fifth click starts the refill. *)
Definition sampleGame : list Event :=
  Click (at_ 0)
  :: sampleRound 0 ++ sampleRound 4000 ++ sampleRound 8000
     ++ sampleRound 12000 ++ sampleRound 16000.

(** The state after the game, its refill still pending. *)
Definition sampleRefilling : World := run sampleAddress sampleSign sampleGame sampleWorld.

(** A state in which the box is green, in round 1. *)
Definition sampleGreen : World :=
  run sampleAddress sampleSign [Click (at_ 0); AnimationFrame 3000] sampleWorld.

(** A mount effect whose gas estimate fails. *)
Definition sampleFailedOutcome : InitOutcome :=
  mkInitOutcome (inr 7) (inr 3%N) (inl QueryRejected) (fun _ => false).

(** The refill promise of [sampleRefilling], and the state once it has
    been fulfilled. *)
Definition sampleRefill : RefillPromise :=
  mkRefill (preSignBatch_call sampleAddress 17 10 sampleWorld) 10 Pending.

Definition sampleRefilled : World :=
  run sampleAddress sampleSign (sampleGame ++ [RefillSettled 0 (fun _ => false)])
    sampleWorld.

(** A game of five rounds that starts at time [t]. *)
Definition sampleGameAt (t : Q) : list Event :=
  Click (at_ t)
  :: sampleRound t ++ sampleRound (t + 4000) ++ sampleRound (t + 8000)
     ++ sampleRound (t + 12000) ++ sampleRound (t + 16000).

(** A round is being waited for. *)
Definition sampleWaiting : World :=
  run sampleAddress sampleSign [Click (at_ 0)] sampleWorld.

(** The sample game with its refill rejected, a second game that uses up
    the pool, and the box green in the first round of a third. *)
Definition sampleExhausted : World :=
  run sampleAddress sampleSign
    (sampleGame ++ [RefillSettled 0 (fun _ => true)] ++ sampleGameAt 20000
     ++ [Click (at_ 40000); AnimationFrame 43000])
    sampleWorld.

(** The first round of the sample game, played and confirmed. *)
Definition samplePlayed : World :=
  run sampleAddress sampleSign (Click (at_ 0) :: sampleRound 0) sampleWorld.

(** The player leaves the page by its BACK link and returns: the component
    is mounted again, and its effect reads the count 8, one above the
    first. *)
Definition sampleRecount : InitOutcome :=
  mkInitOutcome (inr 8) (inr 3%N) (inr 21064%N) (fun _ => false).

Definition sampleRemounted : World :=
  step sampleAddress sampleSign (Mount sampleRecount) samplePlayed.

(** Four rounds of a second game, and the box green in its fifth. *)
Definition sampleNinth : list Event :=
  Click (at_ 20000)
  :: sampleRound 20000 ++ sampleRound 24000 ++ sampleRound 28000
     ++ sampleRound 32000 ++ [AnimationFrame 39000].

(** ** Properties *)

Section Properties.

Variable address : Hex.
Variable signTransaction : TxData -> Hex.

(** The program with these collaborators. *)
#[local] Abbreviation txData := (txData address).
#[local] Abbreviation preSignBatch_call := (preSignBatch_call address).
#[local] Abbreviation getNextTransaction := (getNextTransaction address).
#[local] Abbreviation handleClick := (handleClick address).
#[local] Abbreviation takeMany := (takeMany address).
#[local] Abbreviation newRefill := (newRefill address).
#[local] Abbreviation taken := (taken address).
#[local] Abbreviation request := (request address).
#[local] Abbreviation entryRequest := (entryRequest address).
#[local] Abbreviation signingPromises := (signingPromises signTransaction).
#[local] Abbreviation preSignBatch_resume := (preSignBatch_resume signTransaction).
#[local] Abbreviation refillSettled := (refillSettled signTransaction).
#[local] Abbreviation appended := (appended signTransaction).
#[local] Abbreviation init := (init address signTransaction).
#[local] Abbreviation step := (step address signTransaction).
#[local] Abbreviation run := (run address signTransaction).
#[local] Abbreviation Reachable := (Reachable address signTransaction).
#[local] Abbreviation reach_mount := (reach_mount address signTransaction).
#[local] Abbreviation reach_step := (reach_step address signTransaction).
#[local] Abbreviation entry := (entry address signTransaction).
#[local] Abbreviation Invariant := (Invariant address signTransaction).
#[local] Abbreviation inv_cursor := (inv_cursor address signTransaction).
#[local] Abbreviation inv_batches := (inv_batches address signTransaction).
#[local] Abbreviation inv_entries := (inv_entries address signTransaction).
#[local] Abbreviation inv_requests := (inv_requests address signTransaction).
#[local] Abbreviation inv_fulfilled := (inv_fulfilled address signTransaction).
#[local] Abbreviation inv_unsettled := (inv_unsettled address signTransaction).
#[local] Abbreviation inv_order := (inv_order address signTransaction).
#[local] Abbreviation inv_guard := (inv_guard address signTransaction).
#[local] Abbreviation PoolInv := (PoolInv address signTransaction).
#[local] Abbreviation primed := (primed address signTransaction).
#[local] Abbreviation primedFrom := (primedFrom address signTransaction).
#[local] Abbreviation FirstMount := (FirstMount address signTransaction).
#[local] Abbreviation first_mount := (first_mount address signTransaction).
#[local] Abbreviation first_step := (first_step address signTransaction).
#[local] Abbreviation selfSend := (selfSend address).
#[local] Abbreviation RefillInv := (RefillInv address signTransaction).
#[local] Abbreviation SessionInv := (SessionInv address signTransaction).
#[local] Abbreviation ri_cursor := (ri_cursor address signTransaction).
#[local] Abbreviation ri_batches := (ri_batches address signTransaction).
#[local] Abbreviation ri_signed := (ri_signed address signTransaction).
#[local] Abbreviation ri_requests := (ri_requests address signTransaction).
#[local] Abbreviation ri_fulfilled := (ri_fulfilled address signTransaction).
#[local] Abbreviation ri_unsettled := (ri_unsettled address signTransaction).
#[local] Abbreviation ri_order := (ri_order address signTransaction).
#[local] Abbreviation ri_older := (ri_older address signTransaction).
#[local] Abbreviation ri_guard := (ri_guard address signTransaction).
#[local] Abbreviation ri_set := (ri_set address signTransaction).
#[local] Abbreviation ri_stock := (ri_stock address signTransaction).

(** ** Hexadecimal payloads *)

Lemma toString16_nonempty n : toString16 n <> EmptyString.
Proof.
  unfold toString16, NilZero.string_of_uint.
  destruct (Nat.to_hex_uint n); simpl; discriminate.
Qed.

Lemma parseHex_toString16 n : parseHex (toString16 n) = Some n.
Proof.
  unfold parseHex, toString16.
  destruct (NilZero.usu_gen (Nat.to_hex_uint n)) as [E | E]; rewrite E; simpl.
  - now rewrite HexadecimalNat.Unsigned.of_to.
  - destruct (Nat.to_hex_uint n) eqn:D;
      try (rewrite NilZero.usu in E by discriminate; injection E as E;
           rewrite <- E, <- D; now rewrite HexadecimalNat.Unsigned.of_to).
    rewrite <- (HexadecimalNat.Unsigned.of_to n), D. reflexivity.
Qed.

Lemma parseHex_leading_zero s :
  s <> EmptyString -> parseHex (String "0" s) = parseHex s.
Proof.
  intros Hs. unfold parseHex, NilZero.uint_of_string.
  destruct s as [| c s']; [congruence |].
  change (NilEmpty.uint_of_string (String "0" (String c s')))
    with (uint_of_char "0" (NilEmpty.uint_of_string (String c s'))).
  destruct (NilEmpty.uint_of_string (String c s')); reflexivity.
Qed.

Lemma parseHex_repeat_zero k s :
  s <> EmptyString -> parseHex (repeatChar "0" k ++ s) = parseHex s.
Proof.
  intros Hs. induction k as [| k IH]; simpl; [reflexivity |].
  rewrite parseHex_leading_zero; [exact IH |].
  destruct k; simpl; [exact Hs | discriminate].
Qed.

Lemma parseHex_padStart n : parseHex (padStart 2 "0" (toString16 n)) = Some n.
Proof.
  unfold padStart.
  rewrite parseHex_repeat_zero by apply toString16_nonempty.
  apply parseHex_toString16.
Qed.

(** The payloads of one batch tell its entries apart. *)
Lemma payload_injective w s s' i j :
  data (txData w s i) = data (txData w s' j) -> i = j.
Proof.
  simpl. intros H. injection H as H.
  assert (E : Some (i + 1) = Some (j + 1))
    by (rewrite <- !parseHex_padStart; now rewrite H).
  injection E as E. lia.
Qed.

(** ** Promises *)

Lemma Promise_all_fulfilled {A} (ps : list (Error + A)) (l : list A) :
  Promise_all ps = inr l -> ps = map inr l.
Proof.
  revert l. induction ps as [| [e | a] ps IH]; simpl; intros l H.
  - injection H as <-. reflexivity.
  - discriminate.
  - destruct (Promise_all ps) as [e | l']; [discriminate |].
    injection H as <-. simpl. f_equal. now apply IH.
Qed.

Lemma signingPromises_from (rejects : nat -> bool) a txs l :
  Promise_all
    (map (fun it : nat * TxData =>
            if rejects (fst it) then inl SigningRejected
            else inr (signTransaction (snd it)))
         (combine (seq a (List.length txs)) txs)) = inr l ->
  l = map signTransaction txs
  /\ forall i, i < List.length txs -> rejects (a + i) = false.
Proof.
  revert a l. induction txs as [| tx txs IH]; simpl; intros a l H.
  - injection H as <-. split; [reflexivity | intros i Hi; lia].
  - destruct (rejects a) eqn:Ra; [discriminate |].
    match type of H with
    | match ?P with _ => _ end = _ => destruct P as [e | l'] eqn:E
    end; [discriminate |].
    injection H as <-. apply IH in E. destruct E as [-> Hrej].
    split; [reflexivity |].
    intros [| i] Hi.
    + now rewrite Nat.add_0_r.
    + replace (a + S i) with (S a + i) by lia. apply Hrej. lia.
Qed.

Lemma signingPromises_none_rejects (rejects : nat -> bool) a txs :
  (forall i, i < List.length txs -> rejects (a + i) = false) ->
  Promise_all
    (map (fun it : nat * TxData =>
            if rejects (fst it) then inl SigningRejected
            else inr (signTransaction (snd it)))
         (combine (seq a (List.length txs)) txs))
  = inr (map signTransaction txs).
Proof.
  revert a. induction txs as [| tx txs IH]; simpl; intros a H; [reflexivity |].
  rewrite <- (Nat.add_0_r a) at 1. rewrite (H 0) by lia.
  rewrite IH; [reflexivity |].
  intros i Hi. replace (S a + i) with (a + S i) by lia. apply H. lia.
Qed.

Lemma signingPromises_rejected (rejects : nat -> bool) a txs e :
  Promise_all
    (map (fun it : nat * TxData =>
            if rejects (fst it) then inl SigningRejected
            else inr (signTransaction (snd it)))
         (combine (seq a (List.length txs)) txs)) = inl e ->
  e = SigningRejected
  /\ exists i, i < List.length txs /\ rejects (a + i) = true.
Proof.
  revert a. induction txs as [| tx txs IH]; simpl; intros a H; [discriminate |].
  destruct (rejects a) eqn:Ra.
  - injection H as <-. split; [reflexivity |].
    exists 0. rewrite Nat.add_0_r. split; [lia | exact Ra].
  - match type of H with
    | match ?P with _ => _ end = _ => destruct P as [e' | l'] eqn:E
    end; [| discriminate].
    injection H as <-. apply IH in E. destruct E as [-> [i [Hi Hr]]].
    split; [reflexivity |].
    exists (S i). replace (a + S i) with (S a + i) by lia. split; [lia | exact Hr].
Qed.

(** ** The batch signer *)

Arguments Nat.modulo : simpl never.
Arguments Nat.div : simpl never.

Lemma preSignBatch_call_length startNonce batchSize w :
  List.length (preSignBatch_call startNonce batchSize w) = batchSize.
Proof. unfold preSignBatch_call. now rewrite length_map, length_seq. Qed.

Lemma preSignBatch_call_nth startNonce batchSize w i :
  i < batchSize ->
  nth_error (preSignBatch_call startNonce batchSize w) i
  = Some (txData w startNonce i).
Proof.
  intros Hi. unfold preSignBatch_call.
  rewrite nth_error_map, nth_error_seq.
  apply Nat.ltb_lt in Hi. now rewrite Hi.
Qed.

Lemma preSignBatch_call_nth_inv startNonce batchSize w i tx :
  nth_error (preSignBatch_call startNonce batchSize w) i = Some tx ->
  i < batchSize /\ tx = txData w startNonce i.
Proof.
  intros H.
  assert (Hi : i < batchSize).
  { rewrite <- (preSignBatch_call_length startNonce batchSize w).
    apply nth_error_Some. congruence. }
  rewrite preSignBatch_call_nth in H by exact Hi. split; congruence.
Qed.

Lemma preSignBatch_resume_inr batchSize txs rejects w w' :
  preSignBatch_resume batchSize txs rejects w = inr w' ->
  w' = appended batchSize txs w
  /\ forall i, i < List.length txs -> rejects i = false.
Proof.
  unfold preSignBatch_resume, signingPromises. intros H.
  destruct (Promise_all _) as [e | l] eqn:E; [discriminate |].
  apply signingPromises_from in E. destruct E as [-> Hr].
  injection H as <-. split; [reflexivity | exact Hr].
Qed.

Lemma preSignBatch_resume_inl batchSize txs rejects w e :
  preSignBatch_resume batchSize txs rejects w = inl e ->
  e = SigningRejected /\ exists i, i < List.length txs /\ rejects i = true.
Proof.
  unfold preSignBatch_resume, signingPromises. intros H.
  destruct (Promise_all _) as [e' | l] eqn:E; [| discriminate].
  injection H as <-. now apply signingPromises_rejected in E.
Qed.

Lemma preSignBatch_resume_fulfils batchSize txs rejects w :
  (forall i, i < List.length txs -> rejects i = false) ->
  preSignBatch_resume batchSize txs rejects w = inr (appended batchSize txs w).
Proof.
  intros H. unfold preSignBatch_resume, signingPromises.
  rewrite (signingPromises_none_rejects rejects 0 txs) by exact H.
  reflexivity.
Qed.

Lemma preSignBatch_resume_rejects batchSize txs rejects w i :
  i < List.length txs -> rejects i = true ->
  preSignBatch_resume batchSize txs rejects w = inl SigningRejected.
Proof.
  intros Hi Hr.
  destruct (preSignBatch_resume batchSize txs rejects w) as [e | w'] eqn:E.
  - apply preSignBatch_resume_inl in E. destruct E as [-> _]. reflexivity.
  - apply preSignBatch_resume_inr in E. destruct E as [_ Hn].
    rewrite Hn in Hr by exact Hi. discriminate.
Qed.

(** ** The consumer *)

Lemma getNextTransaction_inr w tx w' :
  getNextTransaction w = inr (tx, w') ->
  currentIndex (preSignedPool w) < List.length (transactions (preSignedPool w))
  /\ tx = nth_error (transactions (preSignedPool w)) (currentIndex (preSignedPool w))
  /\ w' = taken w.
Proof.
  unfold getNextTransaction, taken, refillDue. intros H.
  destruct (Nat.leb_spec (List.length (transactions (preSignedPool w)))
              (currentIndex (preSignedPool w))) as [Hle | Hlt];
    [discriminate |].
  injection H as <- <-. split; [exact Hlt | split; [reflexivity |]].
  cbn [updPool setPool preSignedPool currentIndex setCurrentIndex
       hasTriggeredRefill].
  destruct (_ && _); reflexivity.
Qed.

Lemma getNextTransaction_inl w e :
  getNextTransaction w = inl e ->
  e = NoPreSignedTransactions
  /\ List.length (transactions (preSignedPool w)) <= currentIndex (preSignedPool w).
Proof.
  unfold getNextTransaction. intros H.
  destruct (Nat.leb_spec (List.length (transactions (preSignedPool w)))
              (currentIndex (preSignedPool w))) as [Hle | Hlt];
    [| discriminate].
  injection H as <-. split; [reflexivity | exact Hle].
Qed.

Lemma getNextTransaction_returns w :
  currentIndex (preSignedPool w) < List.length (transactions (preSignedPool w)) ->
  getNextTransaction w
  = inr (nth_error (transactions (preSignedPool w)) (currentIndex (preSignedPool w)),
         taken w).
Proof.
  intros Hlt.
  destruct (getNextTransaction w) as [e | [tx w']] eqn:E.
  - apply getNextTransaction_inl in E. lia.
  - apply getNextTransaction_inr in E. destruct E as [_ [-> ->]]. reflexivity.
Qed.

Lemma getNextTransaction_throws w :
  List.length (transactions (preSignedPool w)) <= currentIndex (preSignedPool w) ->
  getNextTransaction w = inl NoPreSignedTransactions.
Proof.
  intros Hle.
  destruct (getNextTransaction w) as [e | [tx w']] eqn:E.
  - apply getNextTransaction_inl in E. destruct E as [-> _]. reflexivity.
  - apply getNextTransaction_inr in E. lia.
Qed.

(** What [taken] leaves alone, and what it writes. *)
Lemma taken_frame w :
  transactions (preSignedPool (taken w)) = transactions (preSignedPool w)
  /\ baseNonce (preSignedPool (taken w)) = baseNonce (preSignedPool w)
  /\ currentIndex (preSignedPool (taken w)) = currentIndex (preSignedPool w) + 1
  /\ gasPrice (taken w) = gasPrice w
  /\ gasLimit (taken w) = gasLimit w
  /\ isReady (taken w) = isReady w
  /\ gameState (taken w) = gameState w
  /\ currentRound (taken w) = currentRound w
  /\ results (taken w) = results w
  /\ inFlightTx (taken w) = inFlightTx w
  /\ animFrame (taken w) = animFrame w
  /\ greenTimeRef (taken w) = greenTimeRef w
  /\ clickTimeRef (taken w) = clickTimeRef w.
Proof. unfold taken. destruct (refillDue w); repeat split. Qed.

Lemma taken_guard w :
  hasTriggeredRefill (preSignedPool (taken w))
  = hasTriggeredRefill (preSignedPool w) || refillDue w.
Proof.
  unfold taken. destruct (refillDue w) eqn:D; simpl.
  - now rewrite orb_true_r.
  - now rewrite orb_false_r.
Qed.

Lemma taken_refills w :
  refills (taken w) = if refillDue w then newRefill w :: refills w else refills w.
Proof. unfold taken. destruct (refillDue w); reflexivity. Qed.

(** ** The invariant of the pool *)

Lemma map_seq_from {A} (f : nat -> A) a n :
  map f (seq a n) = map (fun j => f (a + j)) (seq 0 n).
Proof.
  revert a. induction n as [| n IH]; intros a; simpl; [reflexivity |].
  rewrite Nat.add_0_r. f_equal.
  rewrite IH, <- seq_shift, map_map.
  apply map_ext. intros j. f_equal. lia.
Qed.

Lemma entry_in_new_batch gp gl base len j :
  len mod 10 = 0 -> j < 10 ->
  entry gp gl base (len + j) = signTransaction (request gp gl (base + len) j).
Proof.
  intros Hm Hj. unfold entry, entryRequest.
  pose proof (Nat.div_mod_eq len 10) as E. rewrite Hm, Nat.add_0_r in E.
  assert (Hq : (len + j) / 10 = len / 10).
  { symmetry. apply (Nat.div_unique (len + j) 10 (len / 10) j); lia. }
  assert (Hr : (len + j) mod 10 = j).
  { symmetry. apply (Nat.mod_unique (len + j) 10 (len / 10) j); lia. }
  rewrite Hq, Hr, <- E. reflexivity.
Qed.

Lemma entries_append gp gl base len :
  len mod 10 = 0 ->
  map (entry gp gl base) (seq 0 (len + 10))
  = map (entry gp gl base) (seq 0 len)
    ++ map signTransaction (map (request gp gl (base + len)) (seq 0 10)).
Proof.
  intros Hm. rewrite seq_app, map_app. f_equal.
  rewrite Nat.add_0_l, map_seq_from, map_map.
  apply map_ext_in. intros j Hj. apply in_seq in Hj.
  apply entry_in_new_batch; [exact Hm | lia].
Qed.

Lemma entryRequest_nonce gp gl base i :
  nonce (entryRequest gp gl base i) = base + i.
Proof. simpl. pose proof (Nat.div_mod_eq i 10). lia. Qed.

Lemma sorted_nth l i j a b :
  StronglySorted above l -> i < j ->
  nth_error l i = Some a -> nth_error l j = Some b -> b + 10 <= a.
Proof.
  intros Hs. revert i j. induction Hs as [| x l Hs IH Hx]; intros i j Hij Hi Hj.
  - destruct i; discriminate.
  - destruct j as [| j]; [lia |]. simpl in Hj.
    destruct i as [| i]; simpl in Hi.
    + injection Hi as <-. apply nth_error_In in Hj.
      rewrite Forall_forall in Hx. exact (Hx b Hj).
    + apply (IH i j); [lia | exact Hi | exact Hj].
Qed.

Lemma refill_starts_differ rs i j p q :
  StronglySorted above (map refillStart rs) -> i <> j ->
  nth_error rs i = Some p -> nth_error rs j = Some q ->
  refillStart p + 10 <= refillStart q \/ refillStart q + 10 <= refillStart p.
Proof.
  intros Hs Hij Hi Hj.
  assert (Hi' : nth_error (map refillStart rs) i = Some (refillStart p))
    by (rewrite nth_error_map, Hi; reflexivity).
  assert (Hj' : nth_error (map refillStart rs) j = Some (refillStart q))
    by (rewrite nth_error_map, Hj; reflexivity).
  destruct (Nat.lt_ge_cases i j) as [Hlt | Hge].
  - right. exact (sorted_nth _ i j _ _ Hs Hlt Hi' Hj').
  - left. apply (sorted_nth _ j i _ _ Hs); [lia | exact Hj' | exact Hi'].
Qed.

(** An unsettled refill is the only one. *)
Lemma unsettled_unique pool gp gl rs k p :
  Invariant pool gp gl rs ->
  nth_error rs k = Some p -> settled p <> Fulfilled ->
  forall j q, j <> k -> nth_error rs j = Some q -> settled q = Fulfilled.
Proof.
  intros I Hk Hp j q Hjk Hj.
  destruct (settled q) eqn:Sq; [| reflexivity |].
  all: exfalso;
    pose proof (inv_unsettled _ _ _ _ I) as U; rewrite Forall_forall in U;
    destruct (U p (nth_error_In _ _ Hk) Hp) as [Ep _];
    destruct (U q (nth_error_In _ _ Hj)) as [Eq _]; [congruence |];
    destruct (refill_starts_differ rs j k q p (inv_order _ _ _ _ I) Hjk Hj Hk);
    lia.
Qed.

Lemma markSettled_starts k s rs :
  map refillStart (markSettled k s rs) = map refillStart rs.
Proof.
  revert k. induction rs as [| p rs IH]; intros k; [now destruct k |].
  destruct k; simpl; [reflexivity | now rewrite IH].
Qed.

Lemma markSettled_length k s rs :
  List.length (markSettled k s rs) = List.length rs.
Proof.
  revert k. induction rs as [| p rs IH]; intros k; [now destruct k |].
  destruct k; simpl; [reflexivity | now rewrite IH].
Qed.

Lemma markSettled_nth k s rs j :
  nth_error (markSettled k s rs) j
  = if j =? k then
      option_map (fun p => mkRefill (requests p) (rBatchSize p) s) (nth_error rs j)
    else nth_error rs j.
Proof.
  revert k j. induction rs as [| p rs IH]; intros k j.
  - destruct j, k; simpl; try reflexivity. now destruct (j =? k).
  - destruct k as [| k], j as [| j]; simpl; try reflexivity.
    apply IH.
Qed.

Lemma Forall_markSettled (P : RefillPromise -> Prop) k s rs :
  (forall j q, j <> k -> nth_error rs j = Some q -> P q) ->
  (forall p, nth_error rs k = Some p ->
             P (mkRefill (requests p) (rBatchSize p) s)) ->
  Forall P (markSettled k s rs).
Proof.
  intros Hother Hk. apply Forall_forall. intros q Hq.
  apply In_nth_error in Hq. destruct Hq as [j Hj].
  rewrite markSettled_nth in Hj.
  destruct (Nat.eqb_spec j k) as [Ejk | Hne].
  - subst j. destruct (nth_error rs k) as [p |] eqn:E; [| discriminate].
    injection Hj as <-. now apply Hk.
  - exact (Hother j q Hne Hj).
Qed.

(** *** The invariant is kept *)

Lemma refillStart_newRefill w :
  refillStart (newRefill w)
  = baseNonce (preSignedPool w) + List.length (transactions (preSignedPool w)).
Proof. unfold refillStart, newRefill. simpl. apply Nat.add_0_r. Qed.

Lemma refillDue_true w :
  refillDue w = true ->
  (currentIndex (preSignedPool w) + 1) mod 5 = 0
  /\ hasTriggeredRefill (preSignedPool w) = false.
Proof.
  unfold refillDue. intros H. apply andb_prop in H. destruct H as [H1 H2].
  apply Nat.eqb_eq in H1. apply negb_true_iff in H2. now split.
Qed.

Lemma PoolInv_taken w :
  PoolInv w ->
  currentIndex (preSignedPool w) < List.length (transactions (preSignedPool w)) ->
  PoolInv (taken w).
Proof.
  intros I Hlt. unfold PoolInv.
  destruct (taken_frame w) as (Et & Eb & Ec & Egp & Egl & _).
  rewrite Egp, Egl, taken_refills.
  pose proof (taken_guard w) as Eg.
  destruct I as [Ic Ib Ie Ir If Iu Io Ig]. fold (PoolInv w) in *.
  assert (Hten : 10 <= List.length (transactions (preSignedPool w))).
  { pose proof (Nat.div_mod_eq (List.length (transactions (preSignedPool w))) 10).
    lia. }
  destruct (refillDue w) eqn:D.
  - apply refillDue_true in D. destruct D as [_ Hflag].
    specialize (Ig Hflag). rewrite Forall_forall in Ig, If.
    constructor; rewrite ?Et, ?Eb, ?Ec.
    + lia.
    + exact Ib.
    + exact Ie.
    + constructor; [| exact Ir].
      rewrite refillStart_newRefill. repeat split. lia.
    + constructor; [discriminate |]. exact (proj2 (Forall_forall _ _) If).
    + constructor.
      * intros _. rewrite refillStart_newRefill, Eg, orb_true_r. now split.
      * apply Forall_forall. intros q Hq Hn. now rewrite (Ig q Hq) in Hn.
    + simpl. constructor; [exact Io |].
      apply Forall_forall. intros a Ha. apply in_map_iff in Ha.
      destruct Ha as [q [<- Hq]]. unfold above.
      rewrite refillStart_newRefill. exact (If q Hq (Ig q Hq)).
    + rewrite Eg, orb_true_r. discriminate.
  - rewrite orb_false_r in Eg.
    constructor; rewrite ?Et, ?Eb, ?Ec, ?Eg; try assumption. lia.
Qed.

Lemma PoolInv_refillSettled k rejects w :
  PoolInv w -> PoolInv (refillSettled k rejects w).
Proof.
  intros I. unfold refillSettled.
  destruct (nth_error (refills w) k) as [p |] eqn:Hk; [| exact I].
  destruct (settled p) eqn:Sp; try exact I.
  assert (Hp : settled p <> Fulfilled) by congruence.
  pose proof (unsettled_unique _ _ _ _ k p I Hk Hp) as Hothers.
  destruct I as [Ic Ib Ie Ir If Iu Io Ig]. fold (PoolInv w) in *.
  pose proof (proj1 (Forall_forall _ _) Ir p (nth_error_In _ _ Hk)) as (Rp & Bp & Lp).
  pose proof (proj1 (Forall_forall _ _) Iu p (nth_error_In _ _ Hk) Hp) as (Stp & Fp).
  destruct (preSignBatch_resume (rBatchSize p) (requests p) rejects w)
    as [e | w'] eqn:E.
  - (* the batch was rejected *)
    unfold PoolInv. simpl_world.
    constructor; try assumption.
    + apply Forall_markSettled.
      * intros j q _ Hj.
        exact (proj1 (Forall_forall _ _) Ir q (nth_error_In _ _ Hj)).
      * intros p0 Hp0. replace p0 with p by congruence. now repeat split.
    + apply Forall_markSettled.
      * intros j q _ Hj.
        exact (proj1 (Forall_forall _ _) If q (nth_error_In _ _ Hj)).
      * intros p0 _. discriminate.
    + apply Forall_markSettled.
      * intros j q _ Hj.
        exact (proj1 (Forall_forall _ _) Iu q (nth_error_In _ _ Hj)).
      * intros p0 Hp0 _. replace p0 with p by congruence. now split.
    + now rewrite markSettled_starts.
    + congruence.
  - (* the batch was appended and the guard released *)
    apply preSignBatch_resume_inr in E. destruct E as [-> _].
    unfold PoolInv, appended. simpl_world.
    assert (Hall : Forall (fun q => settled q = Fulfilled)
                     (markSettled k Fulfilled (refills w))).
    { apply Forall_markSettled; [exact Hothers | reflexivity]. }
    rewrite Rp, Stp.
    constructor; simpl_world;
      rewrite ?length_app, ?length_map, ?length_seq.
    + lia.
    + rewrite <- Nat.Div0.add_mod_idemp_l, Ib. reflexivity.
    + rewrite entries_append by exact Ib. now rewrite <- Ie.
    + apply Forall_markSettled.
      * intros j q _ Hj.
        exact (proj1 (Forall_forall _ _) Ir q (nth_error_In _ _ Hj)).
      * intros p0 Hp0. replace p0 with p by congruence. now repeat split.
    + apply Forall_markSettled.
      * intros j q _ Hj Hq.
        pose proof (proj1 (Forall_forall _ _) If q (nth_error_In _ _ Hj) Hq). lia.
      * intros p0 Hp0 _. replace p0 with p by congruence.
        change (refillStart p + 10
                <= baseNonce (preSignedPool w)
                   + (List.length (transactions (preSignedPool w)) + 10)).
        lia.
    + apply Forall_forall. intros q Hq Hn.
      now rewrite (proj1 (Forall_forall _ _) Hall q Hq) in Hn.
    + now rewrite markSettled_starts.
    + intros _. exact Hall.
Qed.

Lemma Invariant_empty gp gl base flag :
  Invariant (mkPool [] 0 base flag) gp gl [].
Proof. constructor; simpl; try constructor; reflexivity. Qed.

Lemma PoolInv_init o : PoolInv (init o World0).
Proof.
  unfold init.
  destruct (Promise_all2 _ _) as [e | [nonce gas]]; [apply Invariant_empty |].
  destruct (oEstimateGas o) as [e | estimatedGas]; [apply Invariant_empty |].
  destruct (preSignBatch_resume _ _ _ _) as [e | w'] eqn:E;
    [apply Invariant_empty |].
  apply preSignBatch_resume_inr in E. destruct E as [-> _].
  unfold PoolInv, appended. simpl_world.
  change (preSignBatch_call nonce 10 _)
    with (map (request gas estimatedGas nonce) (seq 0 10)).
  change (transactions (preSignedPool World0)) with (@nil Hex).
  constructor; simpl_world; rewrite ?app_nil_l, ?length_map, ?length_seq;
    try (now constructor).
  - unfold World0. simpl_world. lia.
  - pose proof (entries_append gas estimatedGas nonce 0 eq_refl) as E.
    rewrite Nat.add_0_r in E. exact (eq_sym E).
Qed.

Lemma PoolInv_handleClick env w : PoolInv w -> PoolInv (handleClick env w).
Proof.
  intros I. unfold handleClick.
  destruct (isReady w); [| exact I]. cbn [negb].
  destruct (gameState w); try exact I.
  destruct (getNextTransaction _) as [e | [tx w']] eqn:E.
  - destruct (5 <=? currentRound w); exact I.
  - apply getNextTransaction_inr in E. destruct E as (Hlt & _ & ->).
    exact (PoolInv_taken (setGameState CLICKED (setClickTime (eNow env) w)) I Hlt).
Qed.

Lemma PoolInv_checkTime now w : PoolInv w -> PoolInv (checkTime now w).
Proof.
  intros I. unfold checkTime.
  destruct (animFrame w) as [f |]; [| exact I].
  destruct (Number_ge _ _); exact I.
Qed.

Lemma PoolInv_broadcastSettled outcome env w :
  PoolInv w -> PoolInv (broadcastSettled outcome env w).
Proof.
  intros I. unfold broadcastSettled.
  destruct (inFlightTx w) as [b |]; [| exact I].
  destruct outcome; destruct (5 <=? bRound b); exact I.
Qed.

Lemma PoolInv_step ev w : notMount ev -> PoolInv w -> PoolInv (step ev w).
Proof.
  destruct ev; simpl; intros Hm; try destruct Hm.
  - apply PoolInv_handleClick.
  - apply PoolInv_checkTime.
  - apply PoolInv_refillSettled.
  - apply PoolInv_broadcastSettled.
Qed.

Lemma FirstMount_PoolInv w : FirstMount w -> PoolInv w.
Proof.
  induction 1 as [o | ev w _ IH Hm]; [apply PoolInv_init | now apply PoolInv_step].
Qed.

Lemma notMount_countNotBelow ev w : notMount ev -> countNotBelow ev w.
Proof. destruct ev; simpl; trivial. intros []. Qed.

Lemma FirstMount_Reachable w : FirstMount w -> Reachable w.
Proof.
  induction 1 as [o | ev w _ IH Hm]; [apply reach_mount |].
  apply reach_step; [exact IH | now apply notMount_countNotBelow].
Qed.

Lemma FirstMount_run evs w :
  Forall notMount evs -> FirstMount w -> FirstMount (run evs w).
Proof.
  intros Hm. revert w. induction Hm as [| ev evs Hev _ IH]; intros w R; [exact R |].
  simpl. apply IH. now apply first_step.
Qed.

Lemma Reachable_run evs w :
  Forall notMount evs -> Reachable w -> Reachable (run evs w).
Proof.
  intros Hm. revert w. induction Hm as [| ev evs Hev _ IH]; intros w R; [exact R |].
  simpl. apply IH. apply reach_step; [exact R | now apply notMount_countNotBelow].
Qed.

(** Deciding that a list of events holds no mount. *)
Lemma notMount_all evs :
  forallb (fun ev => match ev with Mount _ => false | _ => true end) evs = true ->
  Forall notMount evs.
Proof.
  induction evs as [| ev evs IH]; simpl; intros H; [constructor |].
  apply andb_prop in H. destruct H as [H1 H2].
  constructor; [| now apply IH]. destruct ev; simpl; trivial. discriminate.
Qed.

(** ** The mount effect *)

Lemma init_succeeds_from o w N gp gl :
  oTransactionCount o = inr N -> oGasPrice o = inr gp -> oEstimateGas o = inr gl ->
  (forall i, i < 10 -> oSignRejects o i = false) ->
  init o w = primedFrom w N gp gl.
Proof.
  intros H1 H2 H3 H4. unfold init. rewrite H1, H2, H3. cbn [Promise_all2].
  rewrite preSignBatch_resume_fulfils; [reflexivity |].
  now rewrite preSignBatch_call_length.
Qed.

(** The effect either fails, and then leaves the buffer and [isReady] as
    they were, or every query and signing succeeded. *)
Lemma init_outcome o w :
  (transactions (preSignedPool (init o w)) = transactions (preSignedPool w)
   /\ isReady (init o w) = isReady w
   /\ (baseNonce (preSignedPool (init o w)) = baseNonce (preSignedPool w)
       \/ oTransactionCount o = inr (baseNonce (preSignedPool (init o w))))
   /\ exists e, hd_error (console (init o w)) = Some (ErrFailedToInitialize e))
  \/ (exists N gp gl,
         oTransactionCount o = inr N /\ oGasPrice o = inr gp
         /\ oEstimateGas o = inr gl
         /\ (forall i, i < 10 -> oSignRejects o i = false)
         /\ init o w = primedFrom w N gp gl).
Proof.
  unfold init.
  destruct (oTransactionCount o) as [e1 | N] eqn:O1;
    [left; cbn [Promise_all2]; repeat split; [now left | now exists e1] |].
  destruct (oGasPrice o) as [e2 | gp] eqn:O2;
    [left; cbn [Promise_all2]; repeat split; [now left | now exists e2] |].
  cbn [Promise_all2].
  destruct (oEstimateGas o) as [e3 | gl] eqn:O3;
    [left; repeat split; [now right | now exists e3] |].
  destruct (preSignBatch_resume _ _ _ _) as [e4 | w'] eqn:E;
    [left; repeat split; [now right | now exists e4] |].
  right. exists N, gp, gl.
  apply preSignBatch_resume_inr in E. destruct E as [-> Hn].
  rewrite preSignBatch_call_length in Hn. now repeat split.
Qed.

(** What the effect never writes. *)
Lemma init_frame o w :
  gameState (init o w) = gameState w
  /\ currentRound (init o w) = currentRound w
  /\ results (init o w) = results w
  /\ animFrame (init o w) = animFrame w
  /\ inFlightTx (init o w) = inFlightTx w
  /\ refills (init o w) = refills w
  /\ currentIndex (preSignedPool (init o w)) = currentIndex (preSignedPool w)
  /\ hasTriggeredRefill (preSignedPool (init o w))
     = hasTriggeredRefill (preSignedPool w).
Proof.
  unfold init.
  destruct (Promise_all2 _ _) as [e | [nonce gas]]; [now repeat split |].
  destruct (oEstimateGas o) as [e | estimatedGas]; [now repeat split |].
  destruct (preSignBatch_resume _ _ _ _) as [e | w'] eqn:E; [now repeat split |].
  apply preSignBatch_resume_inr in E. destruct E as [-> _]. now repeat split.
Qed.

Lemma primedFrom_pool w N gp gl :
  preSignedPool (primedFrom w N gp gl)
  = mkPool
      (transactions (preSignedPool w)
       ++ map signTransaction (map (request gp gl N) (seq 0 10)))
      (currentIndex (preSignedPool w)) N (hasTriggeredRefill (preSignedPool w))
  /\ gasPrice (primedFrom w N gp gl) = gp
  /\ gasLimit (primedFrom w N gp gl) = gl
  /\ isReady (primedFrom w N gp gl) = true.
Proof. now repeat split. Qed.

(** ** What holds across mounts *)

Lemma preSignBatch_call_nonces startNonce batchSize w :
  map nonce (preSignBatch_call startNonce batchSize w) = seq startNonce batchSize.
Proof.
  unfold preSignBatch_call. rewrite map_map. simpl.
  rewrite <- (map_id (seq startNonce batchSize)).
  now rewrite (map_seq_from (fun x => x) startNonce batchSize).
Qed.

Lemma preSignBatch_call_selfSend startNonce batchSize w :
  Forall selfSend (preSignBatch_call startNonce batchSize w).
Proof.
  unfold preSignBatch_call. apply Forall_forall. intros tx Htx.
  apply in_map_iff in Htx. destruct Htx as [i [<- _]]. now split.
Qed.

Lemma signed_selfSends txs :
  Forall selfSend txs ->
  Forall (fun e => exists req, e = signTransaction req /\ selfSend req)
    (map signTransaction txs).
Proof.
  intros H. apply Forall_forall. intros e He.
  apply in_map_iff in He. destruct He as [tx [<- Htx]].
  exists tx. split; [reflexivity |].
  exact (proj1 (Forall_forall _ _) H tx Htx).
Qed.

Lemma five_divides_below_ten len c :
  len mod 10 = 0 -> c + 6 = len -> (c + 1) mod 5 = 0.
Proof.
  intros Hm Hc. pose proof (Nat.div_mod_eq len 10) as E.
  rewrite Hm, Nat.add_0_r in E.
  replace (c + 1) with ((2 * (len / 10) - 1) * 5) by lia.
  apply Nat.Div0.mod_mul.
Qed.

(** Only the newest refill can be unsettled. *)
Lemma unsettled_newest rs k p :
  Forall (fun q => settled q = Fulfilled) (tl rs) ->
  nth_error rs k = Some p -> settled p <> Fulfilled ->
  k = 0
  /\ forall j q, j <> k -> nth_error rs j = Some q -> settled q = Fulfilled.
Proof.
  intros Ho Hk Hp. destruct rs as [| r rs]; [now destruct k |].
  simpl in Ho. rewrite Forall_forall in Ho.
  destruct k as [| k].
  - split; [reflexivity |]. intros [| j] q Hj Hq; [congruence |].
    simpl in Hq. exact (Ho q (nth_error_In _ _ Hq)).
  - exfalso. apply Hp. simpl in Hk. exact (Ho p (nth_error_In _ _ Hk)).
Qed.

Lemma RefillInv_empty base :
  RefillInv (mkPool [] 0 base false) [].
Proof.
  constructor; simpl; try constructor; try reflexivity; try discriminate.
Qed.

(** The buffer grows by a signed batch and [baseNonce] does not go down:
    what a mount effect does to the pool. *)
Lemma RefillInv_grow pool rs base' new :
  RefillInv pool rs -> baseNonce pool <= base' ->
  new = [] \/ List.length new = 10 ->
  Forall (fun e => exists req, e = signTransaction req /\ selfSend req) new ->
  RefillInv
    (mkPool (transactions pool ++ new) (currentIndex pool) base'
       (hasTriggeredRefill pool)) rs.
Proof.
  intros [Ic Ib Is Ir If Iu Io Il Ig It Ik] Hb Hn Hs.
  assert (Hlen : List.length (transactions pool) <= List.length (transactions pool ++ new))
    by (rewrite length_app; lia).
  constructor; cbn [transactions currentIndex baseNonce hasTriggeredRefill];
    try assumption.
  - lia.
  - rewrite length_app. destruct Hn as [-> | ->]; simpl.
    + now rewrite Nat.add_0_r.
    + rewrite <- Nat.Div0.add_mod_idemp_l, Ib. reflexivity.
  - apply Forall_app. now split.
  - eapply Forall_impl; [| exact If]. cbn beta. intros p H Hp. specialize (H Hp). lia.
  - eapply Forall_impl; [| exact Iu]. cbn beta. intros p H Hp.
    destruct (H Hp) as [H1 H2]. split; [lia | exact H2].
  - intros Hg. destruct (Ik Hg) as [E | H].
    + destruct Hn as [-> | Hn]; [left; now rewrite E |].
      right. rewrite length_app, Hn. lia.
    + right. lia.
Qed.

Lemma SessionInv_init o w :
  SessionInv w -> countNotBelow (Mount o) w -> SessionInv (init o w).
Proof.
  intros I Hc. unfold SessionInv.
  destruct (init_frame o w) as (_ & _ & _ & _ & _ & Er & Ec & Eg).
  rewrite Er.
  assert (Eta : forall base' new,
             baseNonce (preSignedPool (init o w)) = base' ->
             transactions (preSignedPool (init o w))
             = transactions (preSignedPool w) ++ new ->
             preSignedPool (init o w)
             = mkPool (transactions (preSignedPool w) ++ new)
                 (currentIndex (preSignedPool w)) base'
                 (hasTriggeredRefill (preSignedPool w))).
  { intros base' new Hb Ht. rewrite <- Ec, <- Eg, <- Hb, <- Ht.
    now destruct (preSignedPool (init o w)). }
  simpl in Hc.
  destruct (init_outcome o w) as [(Et & _ & Hb & _) | (N & gp & gl & O1 & _ & _ & _ & E)].
  - rewrite (Eta (baseNonce (preSignedPool (init o w))) [] eq_refl)
      by (now rewrite app_nil_r).
    apply RefillInv_grow; [exact I | | now left | constructor].
    destruct Hb as [-> | Hb]; [lia |]. now rewrite Hb in Hc.
  - rewrite E. destruct (primedFrom_pool w N gp gl) as (-> & _).
    rewrite O1 in Hc.
    apply RefillInv_grow; [exact I | exact Hc | right | ].
    + now rewrite !length_map, length_seq.
    + apply signed_selfSends. apply Forall_forall. intros tx Htx.
      apply in_map_iff in Htx. destruct Htx as [i [<- _]]. now split.
Qed.

Lemma SessionInv_taken w :
  SessionInv w ->
  currentIndex (preSignedPool w) < List.length (transactions (preSignedPool w)) ->
  SessionInv (taken w).
Proof.
  intros I Hlt. unfold SessionInv.
  destruct (taken_frame w) as (Et & Eb & Ec & _).
  rewrite taken_refills.
  pose proof (taken_guard w) as Eg.
  destruct I as [Ic Ib Is Ir If Iu Io Il Ig It Ik]. fold (SessionInv w) in *.
  destruct (refillDue w) eqn:D.
  - pose proof D as D'. apply refillDue_true in D'. destruct D' as [_ Hflag].
    specialize (Ig Hflag). pose proof Ig as Ig'. rewrite Forall_forall in Ig', If.
    rewrite orb_true_r in Eg.
    constructor; rewrite ?Et, ?Eb, ?Ec, ?Eg; try assumption.
    + lia.
    + constructor; [| exact Ir].
      rewrite refillStart_newRefill. unfold newRefill. cbn [requests rBatchSize].
      split; [apply preSignBatch_call_nonces |].
      split; [reflexivity | apply preSignBatch_call_selfSend].
    + constructor; [discriminate |]. exact (proj2 (Forall_forall _ _) If).
    + constructor.
      * intros _. rewrite refillStart_newRefill. split; [lia | reflexivity].
      * apply Forall_forall. intros q Hq Hn. now rewrite (Ig' q Hq) in Hn.
    + simpl. constructor; [exact Io |].
      apply Forall_forall. intros a Ha. apply in_map_iff in Ha.
      destruct Ha as [q [<- Hq]]. unfold above.
      rewrite refillStart_newRefill. exact (If q Hq (Ig' q Hq)).
    + discriminate.
    + intros _. exists (newRefill w). split; [reflexivity | discriminate].
    + discriminate.
  - rewrite orb_false_r in Eg.
    constructor; rewrite ?Et, ?Eb, ?Ec, ?Eg; try assumption; [lia |].
    intros Hg. right. destruct (Ik Hg) as [E | H]; [rewrite E in Hlt; simpl in Hlt; lia |].
    destruct (Nat.eq_dec (currentIndex (preSignedPool w) + 6)
                (List.length (transactions (preSignedPool w)))) as [Heq | Hne]; [| lia].
    exfalso. unfold refillDue in D.
    rewrite (five_divides_below_ten _ _ Ib Heq), Hg in D. discriminate.
Qed.

Lemma SessionInv_refillSettled k rejects w :
  SessionInv w -> SessionInv (refillSettled k rejects w).
Proof.
  intros I. unfold refillSettled.
  destruct (nth_error (refills w) k) as [p |] eqn:Hk; [| exact I].
  destruct (settled p) eqn:Sp; try exact I.
  assert (Hp : settled p <> Fulfilled) by congruence.
  destruct I as [Ic Ib Is Ir If Iu Io Il Ig It Ik]. fold (SessionInv w) in *.
  destruct (unsettled_newest _ k p Il Hk Hp) as [-> Hothers].
  pose proof (proj1 (Forall_forall _ _) Ir p (nth_error_In _ _ Hk)) as (Np & Bp & Sfp).
  pose proof (proj1 (Forall_forall _ _) Iu p (nth_error_In _ _ Hk) Hp) as (Stp & Fp).
  assert (Hlen : List.length (requests p) = 10).
  { rewrite <- (length_map nonce), Np. apply length_seq. }
  assert (Htl : forall s, tl (markSettled 0 s (refills w)) = tl (refills w))
    by (intros s; destruct (refills w); reflexivity).
  destruct (preSignBatch_resume (rBatchSize p) (requests p) rejects w)
    as [e | w'] eqn:E.
  - (* the batch was rejected *)
    unfold SessionInv. simpl_world.
    constructor; try assumption.
    + apply Forall_markSettled.
      * intros j q _ Hj.
        exact (proj1 (Forall_forall _ _) Ir q (nth_error_In _ _ Hj)).
      * intros p0 Hp0. replace p0 with p by congruence. now repeat split.
    + apply Forall_markSettled.
      * intros j q _ Hj.
        exact (proj1 (Forall_forall _ _) If q (nth_error_In _ _ Hj)).
      * intros p0 _. discriminate.
    + apply Forall_markSettled.
      * intros j q _ Hj.
        exact (proj1 (Forall_forall _ _) Iu q (nth_error_In _ _ Hj)).
      * intros p0 Hp0 _. replace p0 with p by congruence. now split.
    + now rewrite markSettled_starts.
    + now rewrite Htl.
    + congruence.
    + intros _. destruct (refills w) as [| r rs]; [discriminate |].
      simpl. eexists. split; [reflexivity | discriminate].
  - (* the batch was appended and the guard released *)
    apply preSignBatch_resume_inr in E. destruct E as [-> _].
    unfold SessionInv, appended. simpl_world.
    assert (Hall : Forall (fun q => settled q = Fulfilled)
                     (markSettled 0 Fulfilled (refills w))).
    { apply Forall_markSettled; [exact Hothers | reflexivity]. }
    constructor; simpl_world;
      rewrite ?length_app, ?length_map, ?Hlen.
    + lia.
    + rewrite <- Nat.Div0.add_mod_idemp_l, Ib. reflexivity.
    + apply Forall_app. split; [exact Is | now apply signed_selfSends].
    + apply Forall_markSettled.
      * intros j q _ Hj.
        exact (proj1 (Forall_forall _ _) Ir q (nth_error_In _ _ Hj)).
      * intros p0 Hp0. replace p0 with p by congruence. now repeat split.
    + apply Forall_markSettled.
      * intros j q _ Hj Hq.
        pose proof (proj1 (Forall_forall _ _) If q (nth_error_In _ _ Hj) Hq). lia.
      * intros p0 Hp0 _. replace p0 with p by congruence.
        change (refillStart p + 10
                <= baseNonce (preSignedPool w)
                   + (List.length (transactions (preSignedPool w)) + 10)).
        lia.
    + apply Forall_forall. intros q Hq Hn.
      now rewrite (proj1 (Forall_forall _ _) Hall q Hq) in Hn.
    + now rewrite markSettled_starts.
    + now rewrite Htl.
    + intros _. exact Hall.
    + discriminate.
    + intros _. right. lia.
Qed.

Lemma SessionInv_handleClick env w : SessionInv w -> SessionInv (handleClick env w).
Proof.
  intros I. unfold handleClick.
  destruct (isReady w); [| exact I]. cbn [negb].
  destruct (gameState w); try exact I.
  destruct (getNextTransaction _) as [e | [tx w']] eqn:E.
  - destruct (5 <=? currentRound w); exact I.
  - apply getNextTransaction_inr in E. destruct E as (Hlt & _ & ->).
    exact (SessionInv_taken (setGameState CLICKED (setClickTime (eNow env) w)) I Hlt).
Qed.

Lemma SessionInv_checkTime now w : SessionInv w -> SessionInv (checkTime now w).
Proof.
  intros I. unfold checkTime.
  destruct (animFrame w) as [f |]; [| exact I].
  destruct (Number_ge _ _); exact I.
Qed.

Lemma SessionInv_broadcastSettled outcome env w :
  SessionInv w -> SessionInv (broadcastSettled outcome env w).
Proof.
  intros I. unfold broadcastSettled.
  destruct (inFlightTx w) as [b |]; [| exact I].
  destruct outcome; destruct (5 <=? bRound b); exact I.
Qed.

Lemma SessionInv_step ev w :
  countNotBelow ev w -> SessionInv w -> SessionInv (step ev w).
Proof.
  destruct ev; simpl step; intros Hc I.
  - now apply SessionInv_handleClick.
  - now apply SessionInv_checkTime.
  - now apply SessionInv_refillSettled.
  - now apply SessionInv_broadcastSettled.
  - apply SessionInv_init; [exact I | exact Hc].
Qed.

Lemma Reachable_SessionInv w : Reachable w -> SessionInv w.
Proof.
  induction 1 as [o | ev w _ IH Hc]; [| now apply SessionInv_step].
  apply SessionInv_init; [apply RefillInv_empty | simpl].
  destruct (oTransactionCount o); [trivial | apply Nat.le_0_l].
Qed.

(** A ready page has its priming batch. *)
Lemma ReadyInv_init o w : isReady w = false -> ReadyInv (init o w).
Proof.
  intros Hr Hi.
  destruct (init_outcome o w) as [(_ & E & _) | (N & gp & gl & _ & _ & _ & _ & E)].
  - congruence.
  - rewrite E. destruct (primedFrom_pool w N gp gl) as (-> & _).
    cbn [transactions]. rewrite length_app, !length_map, length_seq. lia.
Qed.

Lemma step_isReady ev w : notMount ev -> isReady (step ev w) = isReady w.
Proof.
  destruct ev as [env | now | k rejects | outcome env | o]; simpl; intros Hm;
    try destruct Hm.
  - unfold handleClick.
    destruct (isReady w) eqn:Hr; cbn [negb]; [| exact Hr].
    destruct (gameState w); try exact Hr; try reflexivity.
    destruct (getNextTransaction _) as [e | [tx w']] eqn:E.
    + destruct (5 <=? currentRound w); exact Hr.
    + apply getNextTransaction_inr in E. destruct E as (_ & _ & ->).
      simpl_world.
      now destruct (taken_frame (setGameState CLICKED (setClickTime (eNow env) w)))
        as (_ & _ & _ & _ & _ & -> & _).
  - unfold checkTime. destruct (animFrame w) as [f |]; [| reflexivity].
    now destruct (Number_ge _ _).
  - unfold refillSettled.
    destruct (nth_error (refills w) k) as [p |]; [| reflexivity].
    destruct (settled p); try reflexivity.
    destruct (preSignBatch_resume _ _ _ _) as [e | w'] eqn:E; [reflexivity |].
    apply preSignBatch_resume_inr in E. destruct E as [-> _]. reflexivity.
  - unfold broadcastSettled. destruct (inFlightTx w) as [b |]; [| reflexivity].
    destruct outcome; now destruct (5 <=? bRound b).
Qed.

(** *** Reading the invariant *)

Lemma PoolInv_entry w i e :
  PoolInv w ->
  nth_error (transactions (preSignedPool w)) i = Some e ->
  e = entry (gasPrice w) (gasLimit w) (baseNonce (preSignedPool w)) i.
Proof.
  intros I H. pose proof (inv_entries _ _ _ _ I) as E.
  assert (Hi : i < List.length (transactions (preSignedPool w)))
    by (apply nth_error_Some; congruence).
  rewrite E, nth_error_map, nth_error_seq in H.
  apply Nat.ltb_lt in Hi. rewrite Hi in H. simpl in H. congruence.
Qed.

Lemma skipn_nth_error {A} (l : list A) i x :
  nth_error l i = Some x -> skipn i l = x :: skipn (S i) l.
Proof.
  revert i. induction l as [| a l IH]; intros [| i] H; try discriminate.
  - injection H as <-. reflexivity.
  - simpl in H. apply IH in H. exact H.
Qed.

(** Calls in a row return the entries from the cursor on. *)
Lemma takeMany_returns n w :
  currentIndex (preSignedPool w) + n <= List.length (transactions (preSignedPool w)) ->
  exists w',
    takeMany n w
    = (map Some (firstn n (skipn (currentIndex (preSignedPool w))
                             (transactions (preSignedPool w)))),
       w', None)
    /\ transactions (preSignedPool w') = transactions (preSignedPool w)
    /\ baseNonce (preSignedPool w') = baseNonce (preSignedPool w)
    /\ gasPrice w' = gasPrice w /\ gasLimit w' = gasLimit w
    /\ currentIndex (preSignedPool w') = currentIndex (preSignedPool w) + n.
Proof.
  revert w. induction n as [| n IH]; intros w Hn.
  - exists w. simpl. rewrite Nat.add_0_r. repeat split.
  - simpl takeMany.
    rewrite getNextTransaction_returns by lia.
    destruct (taken_frame w) as (Et & Eb & Ec & Egp & Egl & _).
    destruct (IH (taken w)) as (w' & E & Et' & Eb' & Egp' & Egl' & Ec').
    { rewrite Et, Ec. lia. }
    exists w'. rewrite E, Et, Ec.
    destruct (nth_error (transactions (preSignedPool w))
                (currentIndex (preSignedPool w))) as [x |] eqn:Hx.
    2: { apply nth_error_None in Hx. lia. }
    rewrite (skipn_nth_error _ _ _ Hx).
    replace (currentIndex (preSignedPool w) + 1)
      with (S (currentIndex (preSignedPool w))) by lia.
    repeat split; try congruence. lia.
Qed.

(** ** What each operation writes *)

Lemma appended_frame batchSize txs w :
  transactions (preSignedPool (appended batchSize txs w))
  = transactions (preSignedPool w) ++ map signTransaction txs
  /\ currentIndex (preSignedPool (appended batchSize txs w))
     = currentIndex (preSignedPool w)
  /\ baseNonce (preSignedPool (appended batchSize txs w))
     = baseNonce (preSignedPool w)
  /\ hasTriggeredRefill (preSignedPool (appended batchSize txs w))
     = hasTriggeredRefill (preSignedPool w)
  /\ gasPrice (appended batchSize txs w) = gasPrice w
  /\ gasLimit (appended batchSize txs w) = gasLimit w.
Proof. repeat split. Qed.

Lemma handleClick_frame env w :
  baseNonce (preSignedPool (handleClick env w)) = baseNonce (preSignedPool w)
  /\ gasPrice (handleClick env w) = gasPrice w
  /\ gasLimit (handleClick env w) = gasLimit w
  /\ transactions (preSignedPool (handleClick env w))
     = transactions (preSignedPool w).
Proof.
  unfold handleClick.
  destruct (isReady w); [| now repeat split]. cbn [negb].
  destruct (gameState w); try now repeat split.
  destruct (getNextTransaction _) as [e | [tx w']] eqn:E.
  - destruct (5 <=? currentRound w); now repeat split.
  - apply getNextTransaction_inr in E. destruct E as (_ & _ & ->).
    destruct (taken_frame (setGameState CLICKED (setClickTime (eNow env) w)))
      as (Et & Eb & _ & Egp & Egl & _).
    simpl_world. now rewrite Et, Eb, Egp, Egl.
Qed.

Lemma refillSettled_frame k rejects w :
  baseNonce (preSignedPool (refillSettled k rejects w)) = baseNonce (preSignedPool w)
  /\ currentIndex (preSignedPool (refillSettled k rejects w))
     = currentIndex (preSignedPool w)
  /\ gasPrice (refillSettled k rejects w) = gasPrice w
  /\ gasLimit (refillSettled k rejects w) = gasLimit w.
Proof.
  unfold refillSettled.
  destruct (nth_error (refills w) k) as [p |]; [| now repeat split].
  destruct (settled p); try now repeat split.
  destruct (preSignBatch_resume _ _ _ _) as [e | w'] eqn:E; [now repeat split |].
  apply preSignBatch_resume_inr in E. destruct E as [-> _]. now repeat split.
Qed.

Lemma step_frame ev w :
  notMount ev ->
  baseNonce (preSignedPool (step ev w)) = baseNonce (preSignedPool w)
  /\ gasPrice (step ev w) = gasPrice w
  /\ gasLimit (step ev w) = gasLimit w.
Proof.
  destruct ev as [env | now | k rejects | outcome env | o]; simpl; intros Hm;
    try destruct Hm.
  - destruct (handleClick_frame env w) as (? & ? & ? & _). now repeat split.
  - unfold checkTime. destruct (animFrame w) as [f |]; [| now repeat split].
    destruct (Number_ge _ _); now repeat split.
  - destruct (refillSettled_frame k rejects w) as (? & _ & ? & ?). now repeat split.
  - unfold broadcastSettled. destruct (inFlightTx w) as [b |]; [| now repeat split].
    destruct outcome; destruct (5 <=? bRound b); now repeat split.
Qed.

Lemma run_frame evs w :
  Forall notMount evs ->
  baseNonce (preSignedPool (run evs w)) = baseNonce (preSignedPool w)
  /\ gasPrice (run evs w) = gasPrice w
  /\ gasLimit (run evs w) = gasLimit w.
Proof.
  intros Hm. revert w. induction Hm as [| ev evs Hev _ IH]; intros w;
    [now repeat split |].
  simpl. destruct (IH (step ev w)) as (-> & -> & ->). now apply step_frame.
Qed.

(** ** The properties of the pool *)

(** C2.  In every state of a page load [currentIndex] is at most the
    number of entries.  In any state [getNextTransaction] throws, and then
    always the pool-exhausted error, exactly when [currentIndex] is not
    below the number of entries; within that bound this is exactly when the
    two are equal.  Otherwise it returns the entry at [currentIndex] and
    moves [currentIndex] up by one; so as many calls as entries are left
    all return, in order, the entries from the cursor on, and the call
    after them throws. *)
Theorem take_contract :
  (forall w,
      Reachable w ->
      currentIndex (preSignedPool w) <= List.length (transactions (preSignedPool w)))
  /\ (forall w,
      ((exists e, getNextTransaction w = inl e)
       <-> List.length (transactions (preSignedPool w)) <= currentIndex (preSignedPool w))
      /\ (forall e, getNextTransaction w = inl e -> e = NoPreSignedTransactions))
  /\ (forall w,
      let pool := preSignedPool w in
      currentIndex pool <= List.length (transactions pool) ->
      (currentIndex pool < List.length (transactions pool) ->
       exists tx w',
         getNextTransaction w = inr (Some tx, w')
         /\ nth_error (transactions pool) (currentIndex pool) = Some tx
         /\ currentIndex (preSignedPool w') = currentIndex pool + 1)
      /\ ((exists e, getNextTransaction w = inl e)
          <-> currentIndex pool = List.length (transactions pool))
      /\ exists w',
           takeMany (List.length (transactions pool) - currentIndex pool) w
           = (map Some (skipn (currentIndex pool) (transactions pool)), w', None)
           /\ getNextTransaction w' = inl NoPreSignedTransactions).
Proof.
  split; [| split].
  - intros w R. exact (ri_cursor _ _ (Reachable_SessionInv w R)).
  - intros w. split; [split |].
    + intros [e He]. now apply getNextTransaction_inl in He.
    + intros Hle. exists NoPreSignedTransactions.
      now apply getNextTransaction_throws.
    + intros e He. now apply getNextTransaction_inl in He.
  - intros w pool Hc. subst pool. split; [| split; [split |]].
    + intros Hlt.
      destruct (nth_error (transactions (preSignedPool w))
                  (currentIndex (preSignedPool w))) as [tx |] eqn:Hx.
      2: { apply nth_error_None in Hx. lia. }
      exists tx, (taken w). split; [| split].
      * rewrite getNextTransaction_returns by exact Hlt. now rewrite Hx.
      * reflexivity.
      * apply taken_frame.
    + intros [e He]. apply getNextTransaction_inl in He. lia.
    + intros Heq. exists NoPreSignedTransactions.
      apply getNextTransaction_throws. lia.
    + destruct (takeMany_returns
                  (List.length (transactions (preSignedPool w))
                   - currentIndex (preSignedPool w)) w)
        as (w' & E & Et & _ & _ & _ & Ec); [lia |].
      exists w'. split.
      * rewrite E. rewrite firstn_all2; [reflexivity |].
        rewrite length_skipn. lia.
      * apply getNextTransaction_throws. rewrite Et, Ec. lia.
Qed.

(** C9.  Whenever [getNextTransaction] returns, [currentIndex] was inside
    the buffer and the value returned is the entry stored there, never
    [undefined]; in a state of a page load that entry is what the signer
    returned for a request of value zero to the account itself, and until
    the component is mounted a second time the request is the one with
    nonce [baseNonce + currentIndex]. *)
Theorem getNextTransaction_defined w v w' :
  getNextTransaction w = inr (v, w') ->
  let pool := preSignedPool w in
  currentIndex pool < List.length (transactions pool)
  /\ exists tx,
       v = Some tx
       /\ nth_error (transactions pool) (currentIndex pool) = Some tx
       /\ (Reachable w ->
           exists req,
             tx = signTransaction req /\ to req = address /\ value req = 0%N)
       /\ (FirstMount w ->
           exists req,
             tx = signTransaction req
             /\ nonce req = baseNonce pool + currentIndex pool
             /\ to req = address /\ value req = 0%N).
Proof.
  intros H pool. subst pool.
  apply getNextTransaction_inr in H. destruct H as (Hlt & -> & _).
  split; [exact Hlt |].
  destruct (nth_error (transactions (preSignedPool w))
              (currentIndex (preSignedPool w))) as [tx |] eqn:Hx.
  2: { apply nth_error_None in Hx. lia. }
  exists tx. split; [reflexivity |]. split; [reflexivity |]. split.
  - intros R.
    pose proof (ri_signed _ _ (Reachable_SessionInv w R)) as Hs.
    rewrite Forall_forall in Hs.
    destruct (Hs tx (nth_error_In _ _ Hx)) as (req & E & Ht & Hv).
    now exists req.
  - intros R.
    exists (entryRequest (gasPrice w) (gasLimit w) (baseNonce (preSignedPool w))
              (currentIndex (preSignedPool w))).
    split; [| split; [apply entryRequest_nonce | now split]].
    exact (PoolInv_entry w _ tx (FirstMount_PoolInv w R) Hx).
Qed.

(** C6.  Called with [startNonce] and [batchSize], the batch signer hands
    the signer exactly [batchSize] requests; the [i]-th has nonce
    [startNonce + i], value zero, the account itself as recipient and the
    payload [i + 1] in hexadecimal padded to two digits, and the payloads
    of one batch are pairwise different.  When no signing rejects the
    batch is fulfilled, and a fulfilled batch has appended to the pool the
    signed bytes of these requests, in order, and nothing else. *)
Theorem preSignBatch_contract (startNonce batchSize : nat) (w : World) :
  let txs := preSignBatch_call startNonce batchSize w in
  List.length txs = batchSize
  /\ (forall i, i < batchSize ->
      exists tx,
        nth_error txs i = Some tx
        /\ nonce tx = startNonce + i
        /\ value tx = 0%N
        /\ to tx = address
        /\ data tx = ("0x" ++ padStart 2 "0" (toString16 (i + 1)))%string)
  /\ (forall i j tx tx',
      nth_error txs i = Some tx -> nth_error txs j = Some tx' ->
      data tx = data tx' -> i = j)
  /\ (forall rejects w2,
      (forall i, i < batchSize -> rejects i = false) ->
      exists w', preSignBatch_resume batchSize txs rejects w2 = inr w')
  /\ (forall rejects w2 w',
      preSignBatch_resume batchSize txs rejects w2 = inr w' ->
      transactions (preSignedPool w')
      = transactions (preSignedPool w2) ++ map signTransaction txs
      /\ List.length (transactions (preSignedPool w'))
         = List.length (transactions (preSignedPool w2)) + batchSize).
Proof.
  intros txs. subst txs.
  split; [apply preSignBatch_call_length |].
  split; [| split; [| split]].
  - intros i Hi. exists (txData w startNonce i).
    split; [now apply preSignBatch_call_nth | now repeat split].
  - intros i j tx tx' Hi Hj Hd.
    apply preSignBatch_call_nth_inv in Hi, Hj.
    destruct Hi as [_ ->], Hj as [_ ->].
    exact (payload_injective w startNonce startNonce i j Hd).
  - intros rejects w2 Hr. eexists.
    apply preSignBatch_resume_fulfils.
    now rewrite preSignBatch_call_length.
  - intros rejects w2 w' H.
    apply preSignBatch_resume_inr in H. destruct H as [-> _].
    destruct (appended_frame batchSize (preSignBatch_call startNonce batchSize w) w2)
      as (Et & _).
    rewrite Et. split; [reflexivity |].
    now rewrite length_app, length_map, preSignBatch_call_length.
Qed.

Lemma init_writes o w :
  match Promise_all2 (oTransactionCount o) (oGasPrice o) with
  | inl _ =>
      baseNonce (preSignedPool (init o w)) = baseNonce (preSignedPool w)
      /\ gasPrice (init o w) = gasPrice w
      /\ gasLimit (init o w) = gasLimit w
  | inr (count, gas) =>
      baseNonce (preSignedPool (init o w)) = count
      /\ gasPrice (init o w) = gas
      /\ gasLimit (init o w)
         = match oEstimateGas o with
           | inr estimatedGas => estimatedGas
           | inl _ => gasLimit w
           end
  end.
Proof.
  unfold init.
  destruct (Promise_all2 _ _) as [e | [count gas]]; [now repeat split |].
  destruct (oEstimateGas o) as [e | estimatedGas]; [now repeat split |].
  destruct (preSignBatch_resume _ _ _ _) as [e | w'] eqn:E; [now repeat split |].
  apply preSignBatch_resume_inr in E. destruct E as [-> _]. now repeat split.
Qed.

Lemma init_transactions o w :
  exists new,
    transactions (preSignedPool (init o w)) = transactions (preSignedPool w) ++ new.
Proof.
  destruct (init_outcome o w) as [(Et & _) | (N & gp & gl & _ & _ & _ & _ & E)].
  - exists []. now rewrite app_nil_r.
  - rewrite E. destruct (primedFrom_pool w N gp gl) as (-> & _). now eexists.
Qed.

(** C10, as the code behaves.  A fulfilled [preSignBatch] only appends to
    the buffer: the entries already there keep their places, and
    [currentIndex], [baseNonce], the guard and the gas parameters are as
    before.  A call of [getNextTransaction] that returns moves
    [currentIndex] up by one and may set the guard; the buffer,
    [baseNonce] and the gas parameters are as before.  No event but a
    mount writes [baseNonce] or the gas parameters.  Every mount whose
    first two queries succeed writes them, not the first one only: it
    stores the count and the gas price it fetched, and the gas estimate
    when that query succeeds too; a mount whose count or gas price query
    fails writes none of them.  A mount leaves [currentIndex], the guard and
    the entries already in the buffer as they were. *)
Theorem frame_conditions :
  (forall batchSize txs rejects w w',
      preSignBatch_resume batchSize txs rejects w = inr w' ->
      (exists new,
          transactions (preSignedPool w') = transactions (preSignedPool w) ++ new)
      /\ (forall i, i < List.length (transactions (preSignedPool w)) ->
          nth_error (transactions (preSignedPool w')) i
          = nth_error (transactions (preSignedPool w)) i)
      /\ currentIndex (preSignedPool w') = currentIndex (preSignedPool w)
      /\ baseNonce (preSignedPool w') = baseNonce (preSignedPool w)
      /\ hasTriggeredRefill (preSignedPool w') = hasTriggeredRefill (preSignedPool w)
      /\ gasPrice w' = gasPrice w
      /\ gasLimit w' = gasLimit w)
  /\ (forall w v w',
      getNextTransaction w = inr (v, w') ->
      transactions (preSignedPool w') = transactions (preSignedPool w)
      /\ baseNonce (preSignedPool w') = baseNonce (preSignedPool w)
      /\ currentIndex (preSignedPool w') = currentIndex (preSignedPool w) + 1
      /\ (hasTriggeredRefill (preSignedPool w) = true ->
          hasTriggeredRefill (preSignedPool w') = true)
      /\ gasPrice w' = gasPrice w
      /\ gasLimit w' = gasLimit w)
  /\ (forall ev w,
      notMount ev ->
      baseNonce (preSignedPool (step ev w)) = baseNonce (preSignedPool w)
      /\ gasPrice (step ev w) = gasPrice w
      /\ gasLimit (step ev w) = gasLimit w)
  /\ (forall evs w,
      Forall notMount evs ->
      baseNonce (preSignedPool (run evs w)) = baseNonce (preSignedPool w)
      /\ gasPrice (run evs w) = gasPrice w
      /\ gasLimit (run evs w) = gasLimit w)
  /\ (forall o w count gas,
      oTransactionCount o = inr count -> oGasPrice o = inr gas ->
      baseNonce (preSignedPool (step (Mount o) w)) = count
      /\ gasPrice (step (Mount o) w) = gas
      /\ (forall estimatedGas,
          oEstimateGas o = inr estimatedGas ->
          gasLimit (step (Mount o) w) = estimatedGas)
      /\ ((exists e, oEstimateGas o = inl e) ->
          gasLimit (step (Mount o) w) = gasLimit w))
  /\ (forall o w,
      (exists e, oTransactionCount o = inl e) \/ (exists e, oGasPrice o = inl e) ->
      baseNonce (preSignedPool (step (Mount o) w)) = baseNonce (preSignedPool w)
      /\ gasPrice (step (Mount o) w) = gasPrice w
      /\ gasLimit (step (Mount o) w) = gasLimit w)
  /\ (forall o w,
      currentIndex (preSignedPool (step (Mount o) w)) = currentIndex (preSignedPool w)
      /\ hasTriggeredRefill (preSignedPool (step (Mount o) w))
         = hasTriggeredRefill (preSignedPool w)
      /\ exists new,
           transactions (preSignedPool (step (Mount o) w))
           = transactions (preSignedPool w) ++ new).
Proof.
  split; [| split; [| split; [| split; [| split; [| split]]]]].
  - intros batchSize txs rejects w w' H.
    apply preSignBatch_resume_inr in H. destruct H as [-> _].
    destruct (appended_frame batchSize txs w) as (Et & Ec & Eb & Eg & Egp & Egl).
    split; [now exists (map signTransaction txs) |].
    split; [| now repeat split].
    intros i Hi. rewrite Et. now apply nth_error_app1.
  - intros w v w' H.
    apply getNextTransaction_inr in H. destruct H as (_ & _ & ->).
    destruct (taken_frame w) as (Et & Eb & Ec & Egp & Egl & _).
    repeat split; try assumption.
    intros Hg. now rewrite taken_guard, Hg.
  - apply step_frame.
  - intros evs w Hm. now apply run_frame.
  - intros o w count gas H1 H2. simpl step.
    pose proof (init_writes o (SinglePlayer w)) as W.
    rewrite H1, H2 in W. cbn [Promise_all2] in W. destruct W as (Eb & Egp & Egl).
    split; [exact Eb |]. split; [exact Egp |]. split.
    + intros estimatedGas H3. now rewrite Egl, H3.
    + intros [e H3]. now rewrite Egl, H3.
  - intros o w H. simpl step.
    pose proof (init_writes o (SinglePlayer w)) as W.
    destruct H as [[e H] | [e H]]; rewrite H in W.
    + exact W.
    + destruct (oTransactionCount o); exact W.
  - intros o w. simpl step.
    destruct (init_frame o (SinglePlayer w)) as (_ & _ & _ & _ & _ & _ & Ec & Eg).
    split; [exact Ec |]. split; [exact Eg |].
    exact (init_transactions o (SinglePlayer w)).
Qed.

Lemma init_succeeds o N gp gl :
  oTransactionCount o = inr N -> oGasPrice o = inr gp -> oEstimateGas o = inr gl ->
  (forall i, i < 10 -> oSignRejects o i = false) ->
  init o World0 = primed N gp gl.
Proof.
  intros H1 H2 H3 H4. unfold init. rewrite H1, H2, H3. cbn [Promise_all2].
  rewrite preSignBatch_resume_fulfils; [reflexivity |].
  now rewrite preSignBatch_call_length.
Qed.

Lemma filter_none {A} (P : A -> bool) l :
  (forall b, In b l -> P b = false) -> filter P l = [].
Proof.
  induction l as [| a l IH]; intros H; [reflexivity |].
  simpl. rewrite (H a (or_introl eq_refl)). apply IH.
  intros b Hb. apply H. now right.
Qed.

(** ** A refill that is rejected *)

Lemma stuck_taken w :
  stuck w ->
  stuck (taken w) /\ refills (taken w) = refills w.
Proof.
  intros [Hg Hp].
  assert (E : refills (taken w) = refills w).
  { rewrite taken_refills. unfold refillDue. now rewrite Hg, andb_false_r. }
  split; [| exact E]. split.
  - now rewrite taken_guard, Hg.
  - now rewrite E.
Qed.

Lemma stuck_step ev w :
  stuck w ->
  stuck (step ev w)
  /\ refills (step ev w) = refills w
  /\ (notMount ev ->
      transactions (preSignedPool (step ev w)) = transactions (preSignedPool w)).
Proof.
  intros St.
  assert (Same : stuck w /\ refills w = refills w
                 /\ (notMount ev ->
                     transactions (preSignedPool w) = transactions (preSignedPool w)))
    by (split; [exact St | split; [reflexivity | intros _; reflexivity]]).
  destruct ev as [env | now | k rejects | outcome env | o]; simpl step.
  - unfold handleClick.
    destruct (isReady w); [| exact Same]. cbn [negb].
    destruct (gameState w); try exact Same.
    destruct (getNextTransaction _) as [e | [tx w']] eqn:E.
    + destruct (5 <=? currentRound w); exact Same.
    + apply getNextTransaction_inr in E. destruct E as (_ & _ & ->).
      destruct (stuck_taken (setGameState CLICKED (setClickTime (eNow env) w)) St)
        as [St' Er].
      destruct (taken_frame (setGameState CLICKED (setClickTime (eNow env) w)))
        as (Et & _).
      split; [exact St' | split; [exact Er | intros _; exact Et]].
  - unfold checkTime. destruct (animFrame w) as [f |]; [| exact Same].
    destruct (Number_ge _ _); exact Same.
  - unfold refillSettled.
    destruct (nth_error (refills w) k) as [p |] eqn:Hk; [| exact Same].
    destruct (settled p) eqn:Sp; try exact Same.
    exfalso. destruct St as [_ Hp]. rewrite Forall_forall in Hp.
    exact (Hp p (nth_error_In _ _ Hk) Sp).
  - unfold broadcastSettled. destruct (inFlightTx w) as [b |]; [| exact Same].
    destruct outcome; destruct (5 <=? bRound b); exact Same.
  - destruct (init_frame o (SinglePlayer w)) as (_ & _ & _ & _ & _ & Er & _ & Eg).
    destruct St as [Hg Hp].
    split; [split; [now rewrite Eg | now rewrite Er] |].
    split; [exact Er | intros []].
Qed.

Lemma stuck_run evs w :
  stuck w ->
  stuck (run evs w)
  /\ refills (run evs w) = refills w
  /\ (Forall notMount evs ->
      transactions (preSignedPool (run evs w)) = transactions (preSignedPool w)).
Proof.
  revert w. induction evs as [| ev evs IH]; intros w St;
    [split; [exact St | split; [reflexivity | intros _; reflexivity]] |].
  simpl. destruct (stuck_step ev w St) as (St' & Er & Et).
  destruct (IH (step ev w) St') as (St'' & Er' & Et').
  split; [exact St'' | split; [congruence |]].
  intros Hm. inversion Hm as [| ? ? Hev Hevs]; subst.
  rewrite (Et' Hevs). exact (Et Hev).
Qed.

Lemma filter_nil_false {A} (P : A -> bool) l a :
  filter P l = [] -> In a l -> P a = false.
Proof.
  intros H Ha. destruct (P a) eqn:Pa; [| reflexivity].
  assert (Hin : In a (filter P l)) by (apply filter_In; now split).
  rewrite H in Hin. destruct Hin.
Qed.

Lemma SessionInv_no_pending w :
  SessionInv w ->
  (hasTriggeredRefill (preSignedPool w) = false ->
   filter isPending (refills w) = [])
  /\ (filter isRejected (refills w) = [] ->
      filter isPending (refills w) = [] ->
      hasTriggeredRefill (preSignedPool w) = false).
Proof.
  intros I. split.
  - intros Hg. apply filter_none. intros p Hp. unfold isPending.
    now rewrite (proj1 (Forall_forall _ _) (ri_guard _ _ I Hg) p Hp).
  - intros Hr Hp.
    destruct (hasTriggeredRefill (preSignedPool w)) eqn:Hg; [| reflexivity].
    exfalso. destruct (ri_set _ _ I Hg) as (p & Hh & Hn).
    assert (Hin : In p (refills w))
      by (destruct (refills w); [discriminate | left; now injection Hh]).
    pose proof (filter_nil_false _ _ _ Hr Hin) as H1.
    pose proof (filter_nil_false _ _ _ Hp Hin) as H2.
    unfold isRejected in H1. unfold isPending in H2.
    destruct (settled p); congruence.
Qed.

(** C3, as the code behaves.  When [getNextTransaction] returns, it has
    started a refill exactly if the advanced [currentIndex] is a multiple
    of 5 and the guard was not set; the refill is one pending batch of 10
    requests whose nonces start at [baseNonce + transactions.length] as
    they are at that call, and the guard is set.  After a mount effect
    that fetched nonce [N] and signed its batch of 10, five calls return
    the entries signed for nonces [N .. N+4] and leave exactly one refill,
    pending, for the nonces [N+10 .. N+19].  In a state of a page load no
    refill is pending while the guard is not set, and as long as no refill
    was rejected the guard is set only while one is pending: up to then a
    call starts a refill exactly when the advanced [currentIndex] is a
    multiple of 5 and no refill is in flight.  After a refill was rejected
    the guard is set with no refill in flight, and no call starts a refill
    any more, at a multiple of 5 or elsewhere. *)
Theorem refill_trigger :
  (forall w v w',
      getNextTransaction w = inr (v, w') ->
      let pool := preSignedPool w in
      let due :=
        currentIndex (preSignedPool w') mod 5 = 0
        /\ hasTriggeredRefill pool = false in
      (due ->
       exists p,
         refills w' = p :: refills w
         /\ settled p = Pending
         /\ List.length (requests p) = 10
         /\ map nonce (requests p)
            = seq (baseNonce pool + List.length (transactions pool)) 10
         /\ hasTriggeredRefill (preSignedPool w') = true)
      /\ (~ due ->
          refills w' = refills w
          /\ hasTriggeredRefill (preSignedPool w') = hasTriggeredRefill pool))
  /\ (forall o N gp gl,
      oTransactionCount o = inr N -> oGasPrice o = inr gp ->
      oEstimateGas o = inr gl ->
      (forall i, i < 10 -> oSignRejects o i = false) ->
      List.length (transactions (preSignedPool (init o World0))) = 10
      /\ (forall k, nonce (request gp gl N k) = N + k)
      /\ exists w5 p,
           takeMany 5 (init o World0)
           = (map (fun k => Some (signTransaction (request gp gl N k))) (seq 0 5),
              w5, None)
           /\ refills w5 = [p]
           /\ settled p = Pending
           /\ List.length (requests p) = 10
           /\ map nonce (requests p) = seq (N + 10) 10)
  /\ (forall w,
      Reachable w ->
      (hasTriggeredRefill (preSignedPool w) = false ->
       filter isPending (refills w) = [])
      /\ (filter isPending (refills w) <> [] ->
          hasTriggeredRefill (preSignedPool w) = true)
      /\ (filter isRejected (refills w) = [] ->
          (hasTriggeredRefill (preSignedPool w) = false
           <-> filter isPending (refills w) = [])))
  /\ (forall w v w',
      Reachable w -> filter isRejected (refills w) = [] ->
      getNextTransaction w = inr (v, w') ->
      ((exists p, refills w' = p :: refills w /\ settled p = Pending)
       <-> currentIndex (preSignedPool w') mod 5 = 0
           /\ filter isPending (refills w) = []))
  /\ (forall w k p rejects i evs v w'',
      Reachable w ->
      nth_error (refills w) k = Some p -> settled p = Pending ->
      i < 10 -> rejects i = true ->
      let w1 := run evs (refillSettled k rejects w) in
      getNextTransaction w1 = inr (v, w'') ->
      filter isPending (refills w1) = []
      /\ filter isRejected (refills w1) <> []
      /\ hasTriggeredRefill (preSignedPool w1) = true
      /\ refills w'' = refills w1).
Proof.
  assert (H1 : forall w v w',
             getNextTransaction w = inr (v, w') ->
             let pool := preSignedPool w in
             let due :=
               currentIndex (preSignedPool w') mod 5 = 0
               /\ hasTriggeredRefill pool = false in
             (due ->
              exists p,
                refills w' = p :: refills w
                /\ settled p = Pending
                /\ List.length (requests p) = 10
                /\ map nonce (requests p)
                   = seq (baseNonce pool + List.length (transactions pool)) 10
                /\ hasTriggeredRefill (preSignedPool w') = true)
             /\ (~ due ->
                 refills w' = refills w
                 /\ hasTriggeredRefill (preSignedPool w') = hasTriggeredRefill pool)).
  { intros w v w' H pool due. subst pool due.
    apply getNextTransaction_inr in H. destruct H as (_ & _ & ->).
    destruct (taken_frame w) as (_ & _ & Ec & _).
    rewrite Ec, taken_refills, taken_guard.
    destruct (refillDue w) eqn:D.
    + split.
      * intros _. exists (newRefill w). repeat split.
        -- apply preSignBatch_call_nonces.
        -- apply orb_true_r.
      * intros Hn. exfalso. apply Hn. now apply refillDue_true.
    + split.
      * intros [Hm Hg]. exfalso. unfold refillDue in D.
        apply Nat.eqb_eq in Hm. now rewrite Hm, Hg in D.
      * intros _. split; [reflexivity | apply orb_false_r]. }
  split; [exact H1 |]. split; [| split; [| split]].
  - intros o N gp gl O1 O2 O3 O4.
    rewrite (init_succeeds o N gp gl O1 O2 O3 O4).
    split; [reflexivity |]. split; [reflexivity |].
    set (w4 := taken (taken (taken (taken (primed N gp gl))))).
    exists (taken w4), (newRefill w4).
    split; [vm_compute; reflexivity |].
    split; [vm_compute; reflexivity |].
    split; [reflexivity |].
    split; [apply preSignBatch_call_length |].
    unfold newRefill. cbn [requests]. rewrite preSignBatch_call_nonces.
    f_equal; vm_compute; reflexivity.
  - intros w R. pose proof (Reachable_SessionInv w R) as I.
    destruct (SessionInv_no_pending w I) as [Hf Hb].
    split; [exact Hf |]. split.
    + intros Hne. destruct (hasTriggeredRefill (preSignedPool w)); [reflexivity |].
      now specialize (Hf eq_refl).
    + intros Hr. split; [exact Hf | exact (Hb Hr)].
  - intros w v w' R Hr H. pose proof (Reachable_SessionInv w R) as I.
    destruct (SessionInv_no_pending w I) as [Hf Hb].
    destruct (H1 w v w' H) as [Hdue Hnot]. cbn zeta in Hdue, Hnot.
    split.
    + intros (p & Ep & Sp).
      destruct (Nat.eq_dec (currentIndex (preSignedPool w') mod 5) 0) as [Hm | Hm].
      * destruct (hasTriggeredRefill (preSignedPool w)) eqn:Hg.
        -- exfalso. destruct Hnot as [E _]; [intros [_ F]; discriminate |].
           rewrite E in Ep. apply (f_equal (@List.length _)) in Ep.
           simpl in Ep. lia.
        -- split; [exact Hm | now apply Hf].
      * exfalso. destruct Hnot as [E _]; [intros [F _]; contradiction |].
        rewrite E in Ep. apply (f_equal (@List.length _)) in Ep.
        simpl in Ep. lia.
    + intros [Hm Hp].
      destruct Hdue as (p & Ep & Sp & _); [split; [exact Hm | exact (Hb Hr Hp)] |].
      now exists p.
  - intros w k p rejects i evs v w'' R Hk Sp Hi Hrej w1 H. subst w1.
    pose proof (Reachable_SessionInv w R) as I.
    assert (Hn : settled p <> Fulfilled) by congruence.
    destruct (unsettled_newest _ k p (ri_older _ _ I) Hk Hn) as [-> Hothers].
    destruct (proj1 (Forall_forall _ _) (ri_requests _ _ I) p (nth_error_In _ _ Hk))
      as (Np & _).
    destruct (proj1 (Forall_forall _ _) (ri_unsettled _ _ I) p (nth_error_In _ _ Hk) Hn)
      as (_ & Hg).
    assert (Hlen : List.length (requests p) = 10)
      by (rewrite <- (length_map nonce), Np; apply length_seq).
    assert (E : refillSettled 0 rejects w
                = setRefills (markSettled 0 Rejected (refills w))
                    (consoleWrite (UnhandledRejection SigningRejected) w)).
    { unfold refillSettled. rewrite Hk, Sp.
      rewrite (preSignBatch_resume_rejects _ _ rejects w i); [reflexivity | lia | exact Hrej]. }
    assert (St : stuck (refillSettled 0 rejects w)).
    { rewrite E. split; [exact Hg |].
      apply Forall_markSettled.
      - intros j q Hj Hq. rewrite (Hothers j q Hj Hq). discriminate.
      - intros p0 _. discriminate. }
    destruct (stuck_run evs _ St) as (St' & Er & _).
    apply getNextTransaction_inr in H. destruct H as (_ & _ & ->).
    destruct (stuck_taken _ St') as (_ & Er').
    destruct St' as [Hg' Hp'].
    split; [| split; [| split; [exact Hg' | exact Er']]].
    + apply filter_none. intros q Hq. unfold isPending.
      pose proof (proj1 (Forall_forall _ _) Hp' q Hq) as Hs.
      destruct (settled q) eqn:Sq; [congruence | reflexivity | reflexivity].
    + rewrite Er, E. simpl_world.
      destruct (refills w) as [| r rs]; [discriminate |].
      simpl. discriminate.
Qed.

Lemma request_nonces gp gl startNonce n :
  map nonce (map (request gp gl startNonce) (seq 0 n)) = seq startNonce n.
Proof.
  rewrite map_map. simpl.
  rewrite <- (map_id (seq startNonce n)).
  now rewrite (map_seq_from (fun x => x) startNonce n).
Qed.

Lemma firstn_seq_le n a m : n <= m -> firstn n (seq a m) = seq a n.
Proof.
  revert a m. induction n as [| n IH]; intros a m Hn; [reflexivity |].
  destruct m as [| m]; [lia |]. simpl. f_equal. apply IH. lia.
Qed.

Lemma PoolInv_refill_nonces w p :
  PoolInv w -> In p (refills w) ->
  map nonce (requests p) = seq (refillStart p) 10.
Proof.
  intros I Hp.
  destruct (proj1 (Forall_forall _ _) (inv_requests _ _ _ _ I) p Hp) as (E & _).
  rewrite E. apply request_nonces.
Qed.

Lemma PoolInv_refills_disjoint w i j p q tx tx' :
  PoolInv w -> i <> j ->
  nth_error (refills w) i = Some p -> nth_error (refills w) j = Some q ->
  In tx (requests p) -> In tx' (requests q) -> nonce tx <> nonce tx'.
Proof.
  intros I Hij Hi Hj Htx Htx' E.
  pose proof (PoolInv_refill_nonces w p I (nth_error_In _ _ Hi)) as Np.
  pose proof (PoolInv_refill_nonces w q I (nth_error_In _ _ Hj)) as Nq.
  assert (Hp : In (nonce tx) (seq (refillStart p) 10))
    by (rewrite <- Np; now apply in_map).
  assert (Hq : In (nonce tx') (seq (refillStart q) 10))
    by (rewrite <- Nq; now apply in_map).
  apply in_seq in Hp, Hq.
  destruct (refill_starts_differ _ i j p q (inv_order _ _ _ _ I) Hij Hi Hj); lia.
Qed.


(** A mount whose effect succeeds, on whatever pool it finds. *)
Lemma mount_succeeds o w N gp gl :
  oTransactionCount o = inr N -> oGasPrice o = inr gp -> oEstimateGas o = inr gl ->
  (forall i, i < 10 -> oSignRejects o i = false) ->
  preSignedPool (step (Mount o) w)
  = mkPool
      (transactions (preSignedPool w)
       ++ map signTransaction (map (request gp gl N) (seq 0 10)))
      (currentIndex (preSignedPool w)) N (hasTriggeredRefill (preSignedPool w))
  /\ gasPrice (step (Mount o) w) = gp
  /\ gasLimit (step (Mount o) w) = gl
  /\ isReady (step (Mount o) w) = true
  /\ refills (step (Mount o) w) = refills w.
Proof.
  intros O1 O2 O3 O4. simpl step.
  rewrite (init_succeeds_from o (SinglePlayer w) N gp gl O1 O2 O3 O4).
  now repeat split.
Qed.

(** C4, as the code behaves.  Until the component is mounted a second
    time the entry at index [i] is what the signer returned for the
    request with nonce [baseNonce + i]; the nonces a refill asked for are
    ten in a row, above the priming batch, inside the pool once it is
    fulfilled and right above the pool until then, and two refills never
    ask for the same nonce; calls of [getNextTransaction] in a row return
    the entries signed for the nonces [baseNonce + currentIndex], [+1],
    [+2], ...  A later mount whose effect succeeds does not start the pool
    anew: it overwrites [baseNonce] with the count [N] it fetched and
    pushes ten entries signed for the nonces [N .. N+9] behind the [len]
    entries already there, which keep their places and the nonces they
    were signed for.  So when the pool was not empty the entry at index
    [len + j] carries nonce [N + j] and not [baseNonce + len + j], an
    older entry carries [baseNonce + i] only if the count has not moved,
    and a nonce both batches cover is in the pool twice. *)
Theorem sequence_numbers_until_remount :
  (forall w,
      FirstMount w ->
      let pool := preSignedPool w in
      let req := entryRequest (gasPrice w) (gasLimit w) (baseNonce pool) in
      (forall i, nonce (req i) = baseNonce pool + i)
      /\ (forall i e,
          nth_error (transactions pool) i = Some e -> e = signTransaction (req i))
      /\ (forall p,
          In p (refills w) ->
          map nonce (requests p) = seq (refillStart p) 10
          /\ baseNonce pool + 10 <= refillStart p
          /\ (settled p = Fulfilled ->
              refillStart p + 10 <= baseNonce pool + List.length (transactions pool))
          /\ (settled p <> Fulfilled ->
              refillStart p = baseNonce pool + List.length (transactions pool)))
      /\ (forall i j p q tx tx',
          i <> j ->
          nth_error (refills w) i = Some p -> nth_error (refills w) j = Some q ->
          In tx (requests p) -> In tx' (requests q) -> nonce tx <> nonce tx')
      /\ (forall n,
          currentIndex pool + n <= List.length (transactions pool) ->
          exists w',
            takeMany n w
            = (map (fun k => Some (signTransaction (req (currentIndex pool + k))))
                 (seq 0 n),
               w', None)))
  /\ (forall w o N gp gl,
      oTransactionCount o = inr N -> oGasPrice o = inr gp ->
      oEstimateGas o = inr gl ->
      (forall i, i < 10 -> oSignRejects o i = false) ->
      let pool := preSignedPool w in
      let pool' := preSignedPool (step (Mount o) w) in
      let len := List.length (transactions pool) in
      baseNonce pool' = N
      /\ currentIndex pool' = currentIndex pool
      /\ List.length (transactions pool') = len + 10
      /\ (forall i, i < len ->
          nth_error (transactions pool') i = nth_error (transactions pool) i)
      /\ (forall j, j < 10 ->
          nth_error (transactions pool') (len + j)
          = Some (signTransaction (request gp gl N j))
          /\ nonce (request gp gl N j) = N + j
          /\ (0 < len -> nonce (request gp gl N j) <> baseNonce pool' + (len + j))))
  /\ (forall w o N gp gl,
      FirstMount w ->
      oTransactionCount o = inr N -> oGasPrice o = inr gp ->
      oEstimateGas o = inr gl ->
      (forall i, i < 10 -> oSignRejects o i = false) ->
      let pool := preSignedPool w in
      let pool' := preSignedPool (step (Mount o) w) in
      let len := List.length (transactions pool) in
      (forall i, i < len ->
          exists req,
            nth_error (transactions pool') i = Some (signTransaction req)
            /\ nonce req = baseNonce pool + i
            /\ (baseNonce pool <> N -> nonce req <> baseNonce pool' + i))
      /\ (forall i j, i < len -> j < 10 -> baseNonce pool + i = N + j ->
          exists req req',
            nth_error (transactions pool') i = Some (signTransaction req)
            /\ nth_error (transactions pool') (len + j) = Some (signTransaction req')
            /\ nonce req = nonce req')).
Proof.
  split; [| split].
  - intros w R pool req. subst pool req.
    pose proof (FirstMount_PoolInv w R) as I.
    split; [intros i; apply entryRequest_nonce |].
    split; [intros i e H; exact (PoolInv_entry w i e I H) |].
    split; [| split].
    + intros p Hp. split; [exact (PoolInv_refill_nonces w p I Hp) |].
      destruct (proj1 (Forall_forall _ _) (inv_requests _ _ _ _ I) p Hp) as (_ & _ & Hb).
      split; [exact Hb |]. split.
      * exact (proj1 (Forall_forall _ _) (inv_fulfilled _ _ _ _ I) p Hp).
      * intros Hn.
        exact (proj1 (proj1 (Forall_forall _ _) (inv_unsettled _ _ _ _ I) p Hp Hn)).
    + intros i j p q tx tx' Hij Hi Hj.
      exact (PoolInv_refills_disjoint w i j p q tx tx' I Hij Hi Hj).
    + intros n Hn.
      destruct (takeMany_returns n w Hn) as (w' & E & _).
      exists w'. rewrite E. f_equal. f_equal.
      rewrite (inv_entries _ _ _ _ I) at 1.
      rewrite skipn_map, firstn_map, skipn_seq, firstn_seq_le by lia.
      rewrite map_map, Nat.add_0_l.
      now rewrite (map_seq_from _ (currentIndex (preSignedPool w)) n).
  - intros w o N gp gl O1 O2 O3 O4 pool pool' len. subst pool pool' len.
    destruct (mount_succeeds o w N gp gl O1 O2 O3 O4) as (-> & _).
    cbn [baseNonce currentIndex transactions].
    split; [reflexivity |]. split; [reflexivity |].
    split; [now rewrite length_app, !length_map, length_seq |].
    split; [intros i Hi; now apply nth_error_app1 |].
    intros j Hj.
    split; [| split; [reflexivity | cbn [nonce request]; lia]].
    rewrite nth_error_app2 by lia.
    replace (List.length (transactions (preSignedPool w)) + j
             - List.length (transactions (preSignedPool w))) with j by lia.
    rewrite !nth_error_map, nth_error_seq.
    apply Nat.ltb_lt in Hj. now rewrite Hj.
  - intros w o N gp gl R O1 O2 O3 O4 pool pool' len. subst pool pool' len.
    pose proof (FirstMount_PoolInv w R) as I.
    destruct (mount_succeeds o w N gp gl O1 O2 O3 O4) as (-> & _).
    cbn [baseNonce currentIndex transactions].
    assert (Hold : forall i,
               i < List.length (transactions (preSignedPool w)) ->
               nth_error
                 (transactions (preSignedPool w)
                  ++ map signTransaction (map (request gp gl N) (seq 0 10))) i
               = Some (signTransaction
                         (entryRequest (gasPrice w) (gasLimit w)
                            (baseNonce (preSignedPool w)) i))).
    { intros i Hi. rewrite nth_error_app1 by exact Hi.
      destruct (nth_error (transactions (preSignedPool w)) i) as [e |] eqn:He.
      - now rewrite (PoolInv_entry w i e I He).
      - apply nth_error_None in He. lia. }
    split.
    + intros i Hi. eexists. split; [exact (Hold i Hi) |].
      rewrite entryRequest_nonce. split; [reflexivity | lia].
    + intros i j Hi Hj E.
      exists (entryRequest (gasPrice w) (gasLimit w) (baseNonce (preSignedPool w)) i),
        (request gp gl N j).
      split; [exact (Hold i Hi) |]. split.
      * rewrite nth_error_app2 by lia.
        replace (List.length (transactions (preSignedPool w)) + j
                 - List.length (transactions (preSignedPool w))) with j by lia.
        rewrite !nth_error_map, nth_error_seq.
        apply Nat.ltb_lt in Hj. now rewrite Hj.
      * rewrite entryRequest_nonce. cbn [nonce request]. exact E.
Qed.




(** C1, as the code behaves.  When the pending refill of a state of a
    page load settles with every signing fulfilled, its ten entries are
    appended and the guard is released.  When a signing rejects, the pool
    is unchanged and the rejection is reported as unhandled, but the guard
    stays set: from then on, whatever happens, a further mount included,
    the guard is set and no call of [getNextTransaction] starts a refill,
    at a multiple of 5 or elsewhere; the pool never grows unless the
    component is mounted again. *)
Theorem rejected_refill_keeps_guard w k p rejects i :
  Reachable w ->
  nth_error (refills w) k = Some p -> settled p = Pending ->
  i < 10 -> rejects i = true ->
  let w' := refillSettled k rejects w in
  transactions (preSignedPool w') = transactions (preSignedPool w)
  /\ hasTriggeredRefill (preSignedPool w') = true
  /\ hd_error (console w') = Some (UnhandledRejection SigningRejected)
  /\ (forall evs,
      hasTriggeredRefill (preSignedPool (run evs w')) = true
      /\ refills (run evs w') = refills w'
      /\ (Forall notMount evs ->
          transactions (preSignedPool (run evs w')) = transactions (preSignedPool w)))
  /\ (forall evs v w'',
      getNextTransaction (run evs w') = inr (v, w'') ->
      hasTriggeredRefill (preSignedPool w'') = true /\ refills w'' = refills w')
  /\ (forall fulfils,
      (forall j, j < 10 -> fulfils j = false) ->
      hasTriggeredRefill (preSignedPool (refillSettled k fulfils w)) = false
      /\ List.length (transactions (preSignedPool (refillSettled k fulfils w)))
         = List.length (transactions (preSignedPool w)) + 10).
Proof.
  intros R Hk Sp Hi Hr w'. subst w'.
  pose proof (Reachable_SessionInv w R) as I.
  assert (Hn : settled p <> Fulfilled) by congruence.
  destruct (unsettled_newest _ k p (ri_older _ _ I) Hk Hn) as [_ Hothers].
  destruct (proj1 (Forall_forall _ _) (ri_requests _ _ I) p (nth_error_In _ _ Hk))
    as (Np & Bp & _).
  destruct (proj1 (Forall_forall _ _) (ri_unsettled _ _ I) p (nth_error_In _ _ Hk) Hn)
    as (_ & Hg).
  assert (Hlen : List.length (requests p) = 10)
    by (rewrite <- (length_map nonce), Np; apply length_seq).
  assert (E : refillSettled k rejects w
              = setRefills (markSettled k Rejected (refills w))
                  (consoleWrite (UnhandledRejection SigningRejected) w)).
  { unfold refillSettled. rewrite Hk, Sp.
    rewrite (preSignBatch_resume_rejects _ _ rejects w i); [reflexivity | lia | exact Hr]. }
  assert (St : stuck (refillSettled k rejects w)).
  { rewrite E. split; [exact Hg |].
    apply Forall_markSettled.
    - intros j q Hj Hq. rewrite (Hothers j q Hj Hq). discriminate.
    - intros p0 _. discriminate. }
  split; [now rewrite E |]. split; [now rewrite E |]. split; [now rewrite E |].
  split; [| split].
  - intros evs. destruct (stuck_run evs _ St) as ([Hg' _] & Er & Et).
    split; [exact Hg' | split; [exact Er |]].
    intros Hm. rewrite (Et Hm). now rewrite E.
  - intros evs v w'' H.
    apply getNextTransaction_inr in H. destruct H as (_ & _ & ->).
    destruct (stuck_run evs _ St) as (St' & Er & _).
    destruct (stuck_taken _ St') as ([Hg' _] & Er').
    split; [exact Hg' | congruence].
  - intros fulfils Hf. unfold refillSettled. rewrite Hk, Sp.
    rewrite preSignBatch_resume_fulfils by (rewrite Hlen; exact Hf).
    simpl_world. split; [reflexivity |].
    unfold appended. simpl_world. rewrite length_app, length_map. lia.
Qed.

(** ** The rounds of the game *)

Ltac round_inv :=
  split; simpl_world;
  first [ left; reflexivity
        | right; reflexivity
        | right; intuition congruence
        | intuition congruence ].

Lemma RoundInv_handleClick env w : RoundInv w -> RoundInv (handleClick env w).
Proof.
  intros H. unfold handleClick.
  destruct (isReady w); cbn [negb]; [| exact H].
  destruct H as [H1 H2].
  destruct (gameState w) eqn:G; unfold RoundInv, startRound, clearTimers;
    try round_inv.
  - destruct (getNextTransaction _) as [e | [tx w']] eqn:E.
    + destruct (5 <=? currentRound w); unfold startRound, clearTimers; round_inv.
    + apply getNextTransaction_inr in E. destruct E as (_ & _ & ->).
      destruct (taken_frame (setGameState CLICKED (setClickTime (eNow env) w)))
        as (_ & _ & _ & _ & _ & _ & Es & _ & _ & _ & Ea & _).
      simpl_world. rewrite Es, Ea. simpl_world.
      split; [right; intuition congruence | left; reflexivity].
Qed.

Lemma RoundInv_checkTime now w : RoundInv w -> RoundInv (checkTime now w).
Proof.
  intros H. unfold checkTime.
  destruct (animFrame w) as [f |] eqn:A; [| exact H].
  destruct (Number_ge _ _); [| exact H].
  destruct H as [H1 H2]. unfold RoundInv. round_inv.
Qed.

Lemma RoundInv_refillSettled k rejects w :
  RoundInv w -> RoundInv (refillSettled k rejects w).
Proof.
  intros H. unfold refillSettled.
  destruct (nth_error (refills w) k) as [p |]; [| exact H].
  destruct (settled p); try exact H.
  destruct (preSignBatch_resume _ _ _ _) as [e | w'] eqn:E; [exact H |].
  apply preSignBatch_resume_inr in E. destruct E as [-> _]. exact H.
Qed.

Lemma RoundInv_broadcastSettled outcome env w :
  RoundInv w -> RoundInv (broadcastSettled outcome env w).
Proof.
  intros H. unfold broadcastSettled.
  destruct (inFlightTx w) as [b |] eqn:B; [| exact H].
  destruct H as [H1 H2].
  destruct outcome; destruct (5 <=? bRound b);
    unfold RoundInv, startRound, clearTimers; round_inv.
Qed.

Lemma RoundInv_mount o w : RoundInv (init o (SinglePlayer w)).
Proof.
  destruct (init_frame o (SinglePlayer w)) as (_ & _ & _ & Ea & Eb & _).
  split; right; [now rewrite Ea | now rewrite Eb].
Qed.

Lemma Reachable_RoundInv w : Reachable w -> RoundInv w.
Proof.
  induction 1 as [o | ev w _ IH _]; [apply (RoundInv_mount o World0) |].
  destruct ev; simpl.
  - now apply RoundInv_handleClick.
  - now apply RoundInv_checkTime.
  - now apply RoundInv_refillSettled.
  - now apply RoundInv_broadcastSettled.
  - apply RoundInv_mount.
Qed.

Lemma awaiting_step b w w' ev :
  notBroadcast ev -> notMount ev -> awaiting b w w' -> awaiting b w (step ev w').
Proof.
  intros Hev Hm H. pose proof H as (Hs & Hb & Ha & _).
  destruct ev as [env | now | k rejects | outcome env | o]; simpl.
  - unfold handleClick. rewrite Hs.
    destruct (negb (isReady w')); exact H.
  - unfold checkTime. rewrite Ha. exact H.
  - unfold refillSettled.
    destruct (nth_error (refills w') k) as [p |]; [| exact H].
    destruct (settled p); try exact H.
    destruct (preSignBatch_resume _ _ _ _) as [e | w''] eqn:E; [exact H |].
    apply preSignBatch_resume_inr in E. destruct E as [-> _]. exact H.
  - destruct Hev.
  - destruct Hm.
Qed.

Lemma awaiting_run b w w' evs :
  Forall notBroadcast evs -> Forall notMount evs ->
  awaiting b w w' -> awaiting b w (run evs w').
Proof.
  intros Hevs. revert w'. induction Hevs as [| ev evs Hev _ IH]; intros w' Hm H;
    [exact H |].
  inversion Hm as [| ? ? Hmev Hmevs]; subst.
  simpl. apply IH; [exact Hmevs |]. now apply awaiting_step.
Qed.

(** C7.  A valid click in a state of a page load takes the next entry and
    awaits its broadcast; whatever else happens on the page meanwhile,
    when that broadcast fails the round is recorded as failed, with the reaction
    time measured at the click, transaction time zero and total time the
    reaction time; the error is logged, and the game goes on exactly as
    after a confirmed broadcast: to the next round while fewer than five
    are played, to the results after the fifth. *)
Theorem broadcast_failure_recorded w env evs e env' :
  Reachable w -> isReady w = true -> gameState w = READY ->
  currentIndex (preSignedPool w) < List.length (transactions (preSignedPool w)) ->
  Forall notBroadcast evs -> Forall notMount evs ->
  let reactionTime := (Math_round (eNow env - greenTimeRef w) - ADJUSTMENT)%Z in
  let w1 := run evs (handleClick env w) in
  let w2 := broadcastSettled (inl e) env' w1 in
  gameState w1 = CLICKED
  /\ (exists b,
      inFlightTx w1 = Some b
      /\ bSignedTx b
         = nth_error (transactions (preSignedPool w)) (currentIndex (preSignedPool w)))
  /\ results w2
     = results w ++ [mkResult (currentRound w) reactionTime 0 reactionTime true]
  /\ hd_error (console w2) = Some (ErrTransactionFailed e)
  /\ (currentRound w < 5 ->
      gameState w2 = WAITING
      /\ currentRound w2 = currentRound w + 1
      /\ animFrame w2
         = Some (mkFrame (eStartTime env') (1000 + eRandom env' * 4000)%float))
  /\ (5 <= currentRound w ->
      gameState w2 = FINISHED /\ currentRound w2 = currentRound w)
  /\ gameState w2 = gameState (broadcastSettled (inr tt) env' w1)
  /\ currentRound w2 = currentRound (broadcastSettled (inr tt) env' w1)
  /\ isReady w2 = true
  /\ inFlightTx w2 = None.
Proof.
  intros R Hrd Hs Hlt Hevs Hmnt reactionTime w1 w2.
  destruct (Reachable_RoundInv w R) as [[Hw | Ha] _]; [congruence |].
  set (b := mkBroadcast (currentRound w) reactionTime (eTxStart env)
              (nth_error (transactions (preSignedPool w))
                 (currentIndex (preSignedPool w)))).
  assert (Hclick : handleClick env w
                   = setInFlightTx (Some b)
                       (taken (setGameState CLICKED (setClickTime (eNow env) w)))).
  { unfold handleClick. rewrite Hrd, Hs. cbn [negb].
    rewrite getNextTransaction_returns by exact Hlt. reflexivity. }
  assert (Haw : awaiting b w w1).
  { subst w1. apply awaiting_run; [exact Hevs | exact Hmnt |]. rewrite Hclick.
    destruct (taken_frame (setGameState CLICKED (setClickTime (eNow env) w)))
      as (_ & _ & _ & _ & _ & Er & Eg & Ec & Eres & _ & Ean & _).
    unfold awaiting. simpl_world. rewrite Er, Eg, Ec, Eres, Ean. simpl_world.
    now repeat split. }
  destruct Haw as (Hs1 & Hb1 & Ha1 & Hr1 & Hres1 & Hrd1).
  split; [exact Hs1 |].
  split; [exists b; now split |].
  subst w2. unfold broadcastSettled. rewrite Hb1. cbn [bRound bReactionTime b].
  destruct (Nat.leb_spec 5 (currentRound w)) as [Hge | Hlt5];
    unfold startRound, clearTimers; simpl_world; rewrite ?Hres1, ?Hr1, ?Hrd1, ?Hrd;
    repeat split; try reflexivity; intros; try lia.
Qed.

(** ** A mount effect that fails *)

Lemma init_fails_state o :
  initFails o ->
  isReady (init o World0) = false
  /\ refills (init o World0) = []
  /\ inFlightTx (init o World0) = None
  /\ animFrame (init o World0) = None
  /\ gameState (init o World0) = IDLE
  /\ currentRound (init o World0) = 0
  /\ transactions (preSignedPool (init o World0)) = []
  /\ (exists e, hd_error (console (init o World0)) = Some (ErrFailedToInitialize e))
  /\ List.length (filter isInitFailure (console (init o World0))) = 1.
Proof.
  intros F. unfold init.
  destruct (oTransactionCount o) as [e1 | nonce] eqn:O1;
    [cbn [Promise_all2]; repeat split; now exists e1 |].
  destruct (oGasPrice o) as [e2 | gas] eqn:O2;
    [cbn [Promise_all2]; repeat split; now exists e2 |].
  cbn [Promise_all2].
  destruct (oEstimateGas o) as [e3 | estimatedGas] eqn:O3;
    [repeat split; now exists e3 |].
  destruct (preSignBatch_resume _ _ _ _) as [e4 | w'] eqn:E;
    [repeat split; now exists e4 |].
  exfalso. apply preSignBatch_resume_inr in E. destruct E as [_ Hn].
  rewrite preSignBatch_call_length in Hn.
  destruct F as [[e F] | [[e F] | [[e F] | [i [Hi F]]]]]; try congruence.
  rewrite (Hn i Hi) in F. discriminate.
Qed.

Lemma not_ready_step ev w :
  notMount ev ->
  isReady w = false -> refills w = [] -> inFlightTx w = None ->
  animFrame w = None ->
  step ev w = w.
Proof.
  intros Hm Hr Hf Hb Ha.
  destruct ev as [env | now | k rejects | outcome env | o]; simpl.
  - unfold handleClick. now rewrite Hr.
  - unfold checkTime. now rewrite Ha.
  - unfold refillSettled. rewrite Hf. now destruct k.
  - unfold broadcastSettled. now rewrite Hb.
  - destruct Hm.
Qed.

Lemma not_ready_run evs w :
  Forall notMount evs ->
  isReady w = false -> refills w = [] -> inFlightTx w = None ->
  animFrame w = None ->
  run evs w = w.
Proof.
  intros Hm Hr Hf Hb Ha. induction Hm as [| ev evs Hev _ IH]; [reflexivity |].
  simpl. now rewrite not_ready_step.
Qed.

(** A failed mount effect on whatever the page held before. *)
Lemma init_fails_from o w :
  initFails o ->
  isReady (init o w) = isReady w
  /\ exists e,
       filter isInitFailure (console (init o w))
       = ErrFailedToInitialize e :: filter isInitFailure (console w).
Proof.
  intros F. unfold init.
  destruct (oTransactionCount o) as [e1 | nonce] eqn:O1;
    [cbn [Promise_all2]; split; [reflexivity | now exists e1] |].
  destruct (oGasPrice o) as [e2 | gas] eqn:O2;
    [cbn [Promise_all2]; split; [reflexivity | now exists e2] |].
  cbn [Promise_all2].
  destruct (oEstimateGas o) as [e3 | estimatedGas] eqn:O3;
    [split; [reflexivity | now exists e3] |].
  destruct (preSignBatch_resume _ _ _ _) as [e4 | w'] eqn:E;
    [split; [reflexivity | now exists e4] |].
  exfalso. apply preSignBatch_resume_inr in E. destruct E as [_ Hn].
  rewrite preSignBatch_call_length in Hn.
  destruct F as [[e F] | [[e F] | [[e F] | [i [Hi F]]]]]; try congruence.
  rewrite (Hn i Hi) in F. discriminate.
Qed.

(** A page that is not ready and idle stays so until the next mount. *)
Lemma idle_step ev w :
  notMount ev ->
  isReady w = false -> inFlightTx w = None -> animFrame w = None ->
  isReady (step ev w) = false
  /\ inFlightTx (step ev w) = None
  /\ animFrame (step ev w) = None
  /\ gameState (step ev w) = gameState w
  /\ currentRound (step ev w) = currentRound w
  /\ results (step ev w) = results w
  /\ filter isInitFailure (console (step ev w)) = filter isInitFailure (console w).
Proof.
  intros Hm Hr Hb Ha.
  destruct ev as [env | now | k rejects | outcome env | o]; simpl.
  - unfold handleClick. rewrite Hr. now repeat split.
  - unfold checkTime. rewrite Ha. now repeat split.
  - unfold refillSettled.
    destruct (nth_error (refills w) k) as [p |]; [| now repeat split].
    destruct (settled p); try now repeat split.
    destruct (preSignBatch_resume _ _ _ _) as [e | w'] eqn:E; [now repeat split |].
    apply preSignBatch_resume_inr in E. destruct E as [-> _]. now repeat split.
  - unfold broadcastSettled. rewrite Hb. now repeat split.
  - destruct Hm.
Qed.

Lemma idle_run evs w :
  Forall notMount evs ->
  isReady w = false -> inFlightTx w = None -> animFrame w = None ->
  isReady (run evs w) = false
  /\ gameState (run evs w) = gameState w
  /\ currentRound (run evs w) = currentRound w
  /\ results (run evs w) = results w
  /\ filter isInitFailure (console (run evs w)) = filter isInitFailure (console w).
Proof.
  intros Hm. revert w. induction Hm as [| ev evs Hev _ IH]; intros w Hr Hb Ha;
    [now repeat split |].
  simpl.
  destruct (idle_step ev w Hev Hr Hb Ha) as (Hr' & Hb' & Ha' & Es & Ec & Eres & Ef).
  destruct (IH (step ev w) Hr' Hb' Ha') as (Hr'' & Es' & Ec' & Eres' & Ef').
  split; [exact Hr'' |]. repeat split; congruence.
Qed.

(** C8.  When a startup query or a signing of the priming batch fails,
    the mount effect logs the failure once and leaves [isReady] false;
    from then on no event on the page changes anything: the page stays
    not ready and idle with an empty pool, shows the initializing message,
    ignores every click, and logs no second attempt.  The same holds of a
    later mount whose effect fails, whatever the page held before: until
    the component is mounted again the page is not ready and idle, ignores
    every click, and has logged this one failure more. *)
Theorem failed_init_never_ready o evs :
  initFails o -> Forall notMount evs ->
  (let w := run evs (init o World0) in
   w = init o World0
   /\ isReady w = false
   /\ getMessage w = "INITIALIZING..."%string
   /\ gameState w = IDLE
   /\ currentRound w = 0
   /\ (forall env, handleClick env w = w)
   /\ transactions (preSignedPool w) = []
   /\ (exists e, hd_error (console w) = Some (ErrFailedToInitialize e))
   /\ List.length (filter isInitFailure (console w)) = 1)
  /\ (forall w0,
      let w := run evs (step (Mount o) w0) in
      isReady w = false
      /\ getMessage w = "INITIALIZING..."%string
      /\ gameState w = IDLE
      /\ currentRound w = 0
      /\ results w = []
      /\ (forall env, handleClick env w = w)
      /\ List.length (filter isInitFailure (console w))
         = List.length (filter isInitFailure (console w0)) + 1).
Proof.
  intros F Hm. split.
  - intros w. subst w.
    destruct (init_fails_state o F) as (Hr & Hf & Hb & Ha & Hs & Hc & Ht & He & Hn).
    rewrite (not_ready_run evs _ Hm Hr Hf Hb Ha).
    split; [reflexivity |]. split; [exact Hr |].
    split; [unfold getMessage; now rewrite Hr |].
    split; [exact Hs |]. split; [exact Hc |].
    split; [intros env; unfold handleClick; now rewrite Hr |].
    split; [exact Ht |]. split; [exact He | exact Hn].
  - intros w0 w. subst w. simpl step.
    destruct (init_frame o (SinglePlayer w0)) as (Es & Ec & Eres & Ea & Eb & _).
    destruct (init_fails_from o (SinglePlayer w0) F) as (Er & e & Ef).
    destruct (idle_run evs (init o (SinglePlayer w0)) Hm Er Eb Ea)
      as (Hr & Es' & Ec' & Eres' & Ef').
    split; [exact Hr |].
    split; [unfold getMessage; now rewrite Hr |].
    split; [now rewrite Es', Es |]. split; [now rewrite Ec', Ec |].
    split; [now rewrite Eres', Eres |].
    split; [intros env; unfold handleClick; now rewrite Hr |].
    rewrite Ef', Ef. simpl. lia.
Qed.

(** ** Further properties of the pool *)

Lemma refillSettled_transactions k rejects w :
  exists new,
    transactions (preSignedPool (refillSettled k rejects w))
    = transactions (preSignedPool w) ++ new.
Proof.
  unfold refillSettled.
  destruct (nth_error (refills w) k) as [p |];
    [| exists []; now rewrite app_nil_r].
  destruct (settled p); try (exists []; now rewrite app_nil_r).
  destruct (preSignBatch_resume _ _ _ _) as [e | w'] eqn:E;
    [exists []; now rewrite app_nil_r |].
  apply preSignBatch_resume_inr in E. destruct E as [-> _].
  now exists (map signTransaction (requests p)).
Qed.

Lemma handleClick_cursor env w :
  (isReady w = true /\ gameState w = READY
   /\ currentIndex (preSignedPool w) < List.length (transactions (preSignedPool w))
   /\ currentIndex (preSignedPool (handleClick env w))
      = currentIndex (preSignedPool w) + 1)
  \/ ((isReady w = false \/ gameState w <> READY
       \/ List.length (transactions (preSignedPool w)) <= currentIndex (preSignedPool w))
      /\ preSignedPool (handleClick env w) = preSignedPool w
      /\ refills (handleClick env w) = refills w).
Proof.
  unfold handleClick.
  destruct (isReady w); cbn [negb]; [| right; now repeat split; try left].
  destruct (gameState w) eqn:G;
    try (right; split; [right; left; congruence | now split]).
  destruct (getNextTransaction _) as [e | [tx w']] eqn:E.
  - apply getNextTransaction_inl in E. destruct E as [_ Hle].
    right. split; [right; right; exact Hle |].
    destruct (5 <=? currentRound w); now split.
  - apply getNextTransaction_inr in E. destruct E as (Hlt & _ & ->).
    left. repeat split; try assumption.
    simpl_world.
    now destruct (taken_frame (setGameState CLICKED (setClickTime (eNow env) w)))
      as (_ & _ & -> & _).
Qed.

(** X1.  An event changes [currentIndex] only when it is a click on the
    green box of a ready page with an entry left, and then by exactly one;
    it changes the buffer only when it is the settlement of a refill or a
    mount of the component, whose effect signs a priming batch, and then
    by appending. *)
Theorem one_entry_per_valid_click :
  (forall ev w,
      currentIndex (preSignedPool (step ev w)) = currentIndex (preSignedPool w)
      \/ (currentIndex (preSignedPool (step ev w)) = currentIndex (preSignedPool w) + 1
          /\ exists env,
               ev = Click env /\ isReady w = true /\ gameState w = READY
               /\ currentIndex (preSignedPool w)
                  < List.length (transactions (preSignedPool w))))
  /\ (forall env w,
      isReady w = true -> gameState w = READY ->
      currentIndex (preSignedPool w) < List.length (transactions (preSignedPool w)) ->
      currentIndex (preSignedPool (step (Click env) w))
      = currentIndex (preSignedPool w) + 1)
  /\ (forall ev w,
      transactions (preSignedPool (step ev w)) = transactions (preSignedPool w)
      \/ exists new,
           transactions (preSignedPool (step ev w))
           = transactions (preSignedPool w) ++ new
           /\ ((exists k rejects, ev = RefillSettled k rejects)
               \/ (exists o, ev = Mount o))).
Proof.
  split; [| split].
  - intros [env | now | k rejects | outcome env | o] w; simpl.
    + destruct (handleClick_cursor env w) as [(Hr & Hs & Hlt & Hc) | (_ & Hp & _)].
      * right. split; [exact Hc |]. now exists env.
      * left. now rewrite Hp.
    + left. unfold checkTime. destruct (animFrame w) as [f |]; [| reflexivity].
      now destruct (Number_ge _ _).
    + left. apply refillSettled_frame.
    + left. unfold broadcastSettled. destruct (inFlightTx w) as [b |]; [| reflexivity].
      destruct outcome; now destruct (5 <=? bRound b).
    + left. now destruct (init_frame o (SinglePlayer w)) as (_ & _ & _ & _ & _ & _ & -> & _).
  - intros env w Hr Hs Hlt. simpl.
    destruct (handleClick_cursor env w) as [(_ & _ & _ & Hc) | ([H | [H | H]] & _)];
      [exact Hc | congruence | congruence | lia].
  - intros [env | now | k rejects | outcome env | o] w; simpl.
    + left. apply handleClick_frame.
    + left. unfold checkTime. destruct (animFrame w) as [f |]; [| reflexivity].
      now destruct (Number_ge _ _).
    + right. destruct (refillSettled_transactions k rejects w) as [new Hn].
      exists new. split; [exact Hn | left; now exists k, rejects].
    + left. unfold broadcastSettled. destruct (inFlightTx w) as [b |]; [| reflexivity].
      destruct outcome; now destruct (5 <=? bRound b).
    + right. destruct (init_transactions o (SinglePlayer w)) as [new Hn].
      exists new. split; [exact Hn | right; now exists o].
Qed.

Lemma step_monotone ev w :
  currentIndex (preSignedPool w) <= currentIndex (preSignedPool (step ev w))
  /\ exists new,
       transactions (preSignedPool (step ev w))
       = transactions (preSignedPool w) ++ new.
Proof.
  split.
  - destruct ev as [env | now | k rejects | outcome env | o]; simpl.
    + destruct (handleClick_cursor env w) as [(_ & _ & _ & ->) | (_ & -> & _)]; lia.
    + unfold checkTime. destruct (animFrame w) as [f |]; [| lia].
      destruct (Number_ge _ _); simpl; lia.
    + destruct (refillSettled_frame k rejects w) as (_ & -> & _). lia.
    + unfold broadcastSettled. destruct (inFlightTx w) as [b |]; [| lia].
      destruct outcome; destruct (5 <=? bRound b); simpl; lia.
    + destruct (init_frame o (SinglePlayer w)) as (_ & _ & _ & _ & _ & _ & -> & _).
      simpl. lia.
  - destruct ev as [env | now | k rejects | outcome env | o]; simpl.
    + exists []. rewrite app_nil_r. apply handleClick_frame.
    + exists []. rewrite app_nil_r. unfold checkTime.
      destruct (animFrame w) as [f |]; [| reflexivity]. now destruct (Number_ge _ _).
    + apply refillSettled_transactions.
    + exists []. rewrite app_nil_r. unfold broadcastSettled.
      destruct (inFlightTx w) as [b |]; [| reflexivity].
      destruct outcome; now destruct (5 <=? bRound b).
    + exact (init_transactions o (SinglePlayer w)).
Qed.

(** X2.  Over any sequence of events [currentIndex] never goes down and
    the buffer only grows at its end: an entry keeps its index and its
    bytes for the rest of the page load. *)
Theorem pool_only_grows evs w :
  currentIndex (preSignedPool w) <= currentIndex (preSignedPool (run evs w))
  /\ (exists new,
         transactions (preSignedPool (run evs w))
         = transactions (preSignedPool w) ++ new)
  /\ (forall i e,
         nth_error (transactions (preSignedPool w)) i = Some e ->
         nth_error (transactions (preSignedPool (run evs w))) i = Some e).
Proof.
  assert (H : currentIndex (preSignedPool w) <= currentIndex (preSignedPool (run evs w))
              /\ exists new,
                   transactions (preSignedPool (run evs w))
                   = transactions (preSignedPool w) ++ new).
  { revert w. induction evs as [| ev evs IH]; intros w.
    - split; [simpl; lia | exists []; simpl; now rewrite app_nil_r].
    - simpl. destruct (IH (step ev w)) as (Hc & new & Hn).
      destruct (step_monotone ev w) as (Hc' & new' & Hn').
      split; [lia |]. exists (new' ++ new). now rewrite Hn, Hn', app_assoc. }
  destruct H as (Hc & new & Hn). split; [exact Hc |]. split; [now exists new |].
  intros i e Hi. rewrite Hn, nth_error_app1; [exact Hi |].
  apply nth_error_Some. congruence.
Qed.

Lemma Reachable_ReadyInv w : Reachable w -> ReadyInv w.
Proof.
  induction 1 as [o | ev w _ IH _]; [now apply ReadyInv_init |].
  destruct ev as [env | now | k rejects | outcome env | o];
    try (intros Hr; rewrite step_isReady in Hr by exact I;
         specialize (IH Hr);
         match goal with
         | |- context [step ?e w] =>
             destruct (step_monotone e w) as (_ & new & ->)
         end;
         rewrite length_app; lia).
  simpl. now apply ReadyInv_init.
Qed.

(** X3.  On a ready page, in every state of a page load, at least six
    unused entries are left while the guard is not set; so
    [getNextTransaction] can throw only while the guard is set, that is
    with a refill outstanding or after one was rejected. *)
Theorem exhausted_only_with_guard_set w :
  Reachable w -> isReady w = true ->
  (hasTriggeredRefill (preSignedPool w) = false ->
   currentIndex (preSignedPool w) + 6
   <= List.length (transactions (preSignedPool w)))
  /\ (forall e,
      getNextTransaction w = inl e ->
      hasTriggeredRefill (preSignedPool w) = true).
Proof.
  intros R Hr.
  pose proof (Reachable_ReadyInv w R Hr) as Hten.
  assert (St : hasTriggeredRefill (preSignedPool w) = false ->
               currentIndex (preSignedPool w) + 6
               <= List.length (transactions (preSignedPool w))).
  { intros Hg.
    destruct (ri_stock _ _ (Reachable_SessionInv w R) Hg) as [E | H]; [| exact H].
    rewrite E in Hten. simpl in Hten. lia. }
  split; [exact St |].
  intros e He. apply getNextTransaction_inl in He. destruct He as [_ Hle].
  destruct (hasTriggeredRefill (preSignedPool w)); [reflexivity |].
  specialize (St eq_refl). lia.
Qed.


(** ** The rounds of a game *)

Lemma attempts_snoc rs r :
  map attempt rs = seq 1 (List.length rs) ->
  attempt r = List.length rs + 1 ->
  map attempt (rs ++ [r]) = seq 1 (List.length (rs ++ [r])).
Proof.
  intros H Hr. rewrite map_app, length_app, seq_app, H. simpl.
  now rewrite Hr, Nat.add_comm.
Qed.

Lemma GameInv_record w r gs rd b :
  map attempt (results w) = seq 1 (List.length (results w)) ->
  Forall resultOk (results w) ->
  1 <= currentRound w <= 5 ->
  List.length (results w) + 1 = currentRound w ->
  attempt r = currentRound w -> resultOk r ->
  (if 5 <=? currentRound w
   then gs = FINISHED /\ rd = currentRound w
   else gs = WAITING /\ rd = currentRound w + 1) ->
  b = None ->
  map attempt (results w ++ [r]) = seq 1 (List.length (results w ++ [r]))
  /\ Forall resultOk (results w ++ [r])
  /\ match gs with
     | IDLE | TOO_EARLY => rd = 0 /\ results w ++ [r] = [] /\ b = None
     | WAITING | READY =>
         1 <= rd <= 5 /\ List.length (results w ++ [r]) + 1 = rd /\ b = None
     | CLICKED =>
         1 <= rd <= 5 /\ List.length (results w ++ [r]) + 1 = rd
         /\ exists b0 : Broadcast, b = Some b0 /\ bRound b0 = rd
     | FINISHED => rd = 5 /\ List.length (results w ++ [r]) = 5 /\ b = None
     end.
Proof.
  intros Ha Hok Hrd Hlen Hr Hrok Hgs Hb.
  split; [apply attempts_snoc; [exact Ha | lia] |].
  split; [apply Forall_app; split; [exact Hok | now constructor] |].
  rewrite length_app. simpl.
  destruct (Nat.leb_spec 5 (currentRound w)); destruct Hgs as [-> ->];
    repeat split; try assumption; lia.
Qed.

Lemma GameInv_handleClick env w :
  RoundInv w -> GameInv w -> GameInv (handleClick env w).
Proof.
  intros [_ Hfl] G. unfold handleClick.
  destruct (isReady w); cbn [negb]; [| exact G].
  destruct G as (Ha & Hok & Hst).
  destruct (gameState w) eqn:Gs; unfold GameInv, startRound, clearTimers;
    simpl_world.
  - repeat split; try constructor; try lia. now destruct Hst as (_ & _ & ->).
  - repeat split; try constructor. now destruct Hst as (_ & _ & ->).
  - destruct Hst as (Hrd & Hlen & Hb).
    destruct (getNextTransaction _) as [e | [tx w']] eqn:E.
    + set (r := mkResult (currentRound w)
                  (Math_round (eNow env - greenTimeRef w) - ADJUSTMENT) 0
                  (Math_round (eNow env - greenTimeRef w) - ADJUSTMENT) true).
      assert (Hrok : resultOk r) by (split; [simpl; lia | reflexivity]).
      destruct (Nat.leb_spec 5 (currentRound w)) as [H5 | H5]; simpl_world.
      * apply (GameInv_record w r FINISHED (currentRound w) (inFlightTx w));
          try assumption; try reflexivity.
        destruct (Nat.leb_spec 5 (currentRound w)); [now split | lia].
      * apply (GameInv_record w r WAITING (currentRound w + 1) (inFlightTx w));
          try assumption; try reflexivity.
        destruct (Nat.leb_spec 5 (currentRound w)); [lia | now split].
    + apply getNextTransaction_inr in E. destruct E as (_ & _ & ->).
      destruct (taken_frame (setGameState CLICKED (setClickTime (eNow env) w)))
        as (_ & _ & _ & _ & _ & _ & Es & Ec & Er & _).
      simpl_world. rewrite Es, Ec, Er. simpl_world.
      repeat split; try assumption; try lia. eexists. split; reflexivity.
  - rewrite Gs. now repeat split.
  - repeat split; try constructor; try lia. now destruct Hst as (_ & _ & ->).
  - repeat split; try constructor; try lia. now destruct Hst as (_ & _ & ->).
Qed.

Lemma GameInv_checkTime now w :
  RoundInv w -> GameInv w -> GameInv (checkTime now w).
Proof.
  intros [Hfr _] G. unfold checkTime.
  destruct (animFrame w) as [f |] eqn:A; [| exact G].
  destruct (Number_ge _ _); [| exact G].
  destruct Hfr as [Hw | Hn]; [| congruence].
  destruct G as (Ha & Hok & Hst). rewrite Hw in Hst.
  unfold GameInv. simpl_world. now repeat split.
Qed.

Lemma GameInv_refillSettled k rejects w :
  GameInv w -> GameInv (refillSettled k rejects w).
Proof.
  intros G. unfold refillSettled.
  destruct (nth_error (refills w) k) as [p |]; [| exact G].
  destruct (settled p); try exact G.
  destruct (preSignBatch_resume _ _ _ _) as [e | w'] eqn:E; [exact G |].
  apply preSignBatch_resume_inr in E. destruct E as [-> _]. exact G.
Qed.

Lemma GameInv_broadcastSettled outcome env w :
  RoundInv w -> GameInv w -> GameInv (broadcastSettled outcome env w).
Proof.
  intros [_ Hfl] G. unfold broadcastSettled.
  destruct (inFlightTx w) as [b |] eqn:B; [| exact G].
  destruct Hfl as [Hc | Hn]; [| discriminate].
  destruct G as (Ha & Hok & Hst). rewrite Hc in Hst.
  destruct Hst as (Hrd & Hlen & b0 & Hb0 & Hbr).
  assert (b0 = b) by congruence. subst b0.
  unfold GameInv, startRound, clearTimers.
  destruct outcome as [e | u].
  - set (r := mkResult (bRound b) (bReactionTime b) 0 (bReactionTime b) true).
    assert (Hrok : resultOk r) by (split; [simpl; lia | reflexivity]).
    rewrite Hbr.
    destruct (Nat.leb_spec 5 (currentRound w)) as [H5 | H5]; simpl_world; rewrite ?Hbr.
    + apply (GameInv_record w r FINISHED (currentRound w) None);
        try assumption; try reflexivity.
      destruct (Nat.leb_spec 5 (currentRound w)); [now split | lia].
    + apply (GameInv_record w r WAITING (currentRound w + 1) None);
        try assumption; try reflexivity.
      destruct (Nat.leb_spec 5 (currentRound w)); [lia | now split].
  - set (r := mkResult (bRound b) (bReactionTime b)
                (Math_round (eNow env - bTxStart b))
                (bReactionTime b + Math_round (eNow env - bTxStart b)) false).
    assert (Hrok : resultOk r) by (split; [reflexivity | discriminate]).
    rewrite Hbr.
    destruct (Nat.leb_spec 5 (currentRound w)) as [H5 | H5]; simpl_world; rewrite ?Hbr.
    + apply (GameInv_record w r FINISHED (currentRound w) None);
        try assumption; try reflexivity.
      destruct (Nat.leb_spec 5 (currentRound w)); [now split | lia].
    + apply (GameInv_record w r WAITING (currentRound w + 1) None);
        try assumption; try reflexivity.
      destruct (Nat.leb_spec 5 (currentRound w)); [lia | now split].
Qed.

Lemma GameInv_mount o w : GameInv (init o (SinglePlayer w)).
Proof.
  destruct (init_frame o (SinglePlayer w)) as (Es & Ec & Er & _ & Eb & _).
  unfold GameInv. rewrite Es, Ec, Er, Eb. repeat split; constructor.
Qed.

Lemma Reachable_GameInv w : Reachable w -> GameInv w.
Proof.
  induction 1 as [o | ev w R IH _]; [apply (GameInv_mount o World0) |].
  pose proof (Reachable_RoundInv w R) as RI.
  destruct ev; simpl.
  - now apply GameInv_handleClick.
  - now apply GameInv_checkTime.
  - now apply GameInv_refillSettled.
  - now apply GameInv_broadcastSettled.
  - apply GameInv_mount.
Qed.

(** X5.  In every state of a page load the results are the attempts 1, 2,
    ... in order, at most five of them, each with total time its reaction
    time plus its transaction time and with transaction time zero when it
    failed; while a round is played the round counter is the number of
    results plus one, and a finished game has exactly five results and
    round counter 5. *)
Theorem game_bookkeeping w :
  Reachable w ->
  map attempt (results w) = seq 1 (List.length (results w))
  /\ List.length (results w) <= 5
  /\ currentRound w <= 5
  /\ Forall resultOk (results w)
  /\ (gameState w = FINISHED ->
      List.length (results w) = 5 /\ currentRound w = 5)
  /\ (gameState w = WAITING \/ gameState w = READY \/ gameState w = CLICKED ->
      List.length (results w) + 1 = currentRound w)
  /\ (gameState w = IDLE \/ gameState w = TOO_EARLY ->
      results w = [] /\ currentRound w = 0).
Proof.
  intros R. destruct (Reachable_GameInv w R) as (Ha & Hok & Hst).
  split; [exact Ha |].
  assert (Hlen : List.length (results w) <= 5 /\ currentRound w <= 5).
  { destruct (gameState w); destruct Hst as (H1 & H2 & H3);
      try rewrite H2; simpl; lia. }
  split; [apply Hlen |]. split; [apply Hlen |]. split; [exact Hok |].
  destruct (gameState w); destruct Hst as (H1 & H2 & H3);
    (split; [| split]); intros H;
    try (destruct H as [H | [H | H]]; discriminate);
    try (destruct H as [H | H]; discriminate); try discriminate;
    try (now split); try assumption.
Qed.

(** ** Clicks, frames and broadcasts *)

(** X6.  A click while the page waits for green cancels the pending frame,
    sets the too-early state, and resets the round counter and the
    results; it takes no entry and sends nothing.  No animation frame turns
    the box green afterwards, and the next click starts round 1 of a new
    game. *)
Theorem too_early_click env w :
  isReady w = true -> gameState w = WAITING ->
  let w1 := handleClick env w in
  gameState w1 = TOO_EARLY
  /\ currentRound w1 = 0 /\ results w1 = [] /\ animFrame w1 = None
  /\ preSignedPool w1 = preSignedPool w
  /\ refills w1 = refills w
  /\ inFlightTx w1 = inFlightTx w
  /\ getMessage w1 = "TOO EARLY! CLICK TO RETRY"%string
  /\ (forall now, checkTime now w1 = w1)
  /\ (forall env',
      gameState (handleClick env' w1) = WAITING
      /\ currentRound (handleClick env' w1) = 1
      /\ animFrame (handleClick env' w1)
         = Some (mkFrame (eStartTime env') (1000 + eRandom env' * 4000)%float)).
Proof.
  intros Hr Hs w1. subst w1.
  assert (E : handleClick env w
              = setResults (fun _ => [])
                  (setCurrentRound (fun _ => 0)
                     (setGameState TOO_EARLY (clearTimers w)))).
  { unfold handleClick. now rewrite Hr, Hs. }
  rewrite E. unfold clearTimers, getMessage, checkTime, handleClick.
  simpl_world. rewrite Hr. cbn [negb].
  repeat split.
Qed.




(** X8.  A click on the green box when no entry is left sends nothing: the
    exception of [getNextTransaction] is caught at once, logged, and the
    round is recorded as failed with transaction time zero; the pool is
    untouched and the game goes on, to the next round while fewer than
    five are played, to the results after the fifth. *)
Theorem exhausted_click_recorded env w :
  isReady w = true -> gameState w = READY ->
  List.length (transactions (preSignedPool w)) <= currentIndex (preSignedPool w) ->
  let reactionTime := (Math_round (eNow env - greenTimeRef w) - ADJUSTMENT)%Z in
  let w1 := handleClick env w in
  results w1 = results w ++ [mkResult (currentRound w) reactionTime 0 reactionTime true]
  /\ hd_error (console w1) = Some (ErrTransactionFailed NoPreSignedTransactions)
  /\ inFlightTx w1 = inFlightTx w
  /\ preSignedPool w1 = preSignedPool w
  /\ refills w1 = refills w
  /\ (currentRound w < 5 ->
      gameState w1 = WAITING /\ currentRound w1 = currentRound w + 1)
  /\ (5 <= currentRound w ->
      gameState w1 = FINISHED /\ currentRound w1 = currentRound w).
Proof.
  intros Hr Hs Hle reactionTime w1. subst w1 reactionTime.
  unfold handleClick. rewrite Hr, Hs. cbn [negb].
  rewrite getNextTransaction_throws by exact Hle.
  destruct (Nat.leb_spec 5 (currentRound w)); unfold startRound, clearTimers;
    simpl_world; repeat split; intros; try reflexivity; lia.
Qed.


Lemma Math_round_Z (z : Z) : Math_round (inject_Z z) = z.
Proof.
  unfold Math_round, Qfloor, Qplus, inject_Z.
  cbn [Qnum Qden Pos.mul].
  symmetry. apply (Z.div_unique _ 2 z 1); lia.
Qed.

Lemma Math_round_mono (x y : Q) : (x <= y)%Q -> (Math_round x <= Math_round y)%Z.
Proof. intros H. unfold Math_round. apply Qfloor_resp_le. lra. Qed.




(** ** The summary of a game *)

Lemma sum_bounds {A} (f : A -> Z) lo hi l a :
  Forall (fun r => (lo <= f r <= hi)%Z) l ->
  (a + lo * Z.of_nat (List.length l)
   <= fold_left (fun sum r => sum + f r) l a
   <= a + hi * Z.of_nat (List.length l))%Z.
Proof.
  intros H. revert a. induction H as [| r l Hr _ IH]; intros a.
  - simpl. lia.
  - cbn [fold_left]. specialize (IH (a + f r)%Z).
    rewrite length_cons, Nat2Z.inj_succ. nia.
Qed.

Lemma rounded_mean_bounds (sum : Z) (n : nat) lo hi :
  0 < n ->
  (lo * Z.of_nat n <= sum <= hi * Z.of_nat n)%Z ->
  (lo <= Math_round (inject_Z sum / inject_Z (Z.of_nat n)) <= hi)%Z.
Proof.
  intros Hn [Hlo Hhi].
  assert (Hpos : (0 < inject_Z (Z.of_nat n))%Q).
  { change 0%Q with (inject_Z 0). rewrite <- Zlt_Qlt. lia. }
  split.
  - rewrite <- (Math_round_Z lo) at 1. apply Math_round_mono.
    apply Qle_shift_div_l; [exact Hpos |].
    rewrite <- inject_Z_mult, <- Zle_Qle. exact Hlo.
  - rewrite <- (Math_round_Z hi) at 1. apply Math_round_mono.
    apply Qle_shift_div_r; [exact Hpos |].
    rewrite <- inject_Z_mult, <- Zle_Qle. exact Hhi.
Qed.

(** X11.  With no result both averages are 0.  Otherwise the average
    reaction time lies between the smallest and the largest recorded
    reaction time.  The average transaction time is taken over the rounds
    that did not fail only: it lies between their smallest and largest
    transaction time, whatever the failed rounds recorded, and is 0 when
    every round failed, so that the average total is then the average
    reaction time. *)
Theorem averages_within_range w :
  (results w = [] -> avgReaction w = 0%Z /\ avgTx w = 0%Z /\ avgTotal w = 0%Z)
  /\ (forall lo hi,
      results w <> [] ->
      Forall (fun r => (lo <= reactionTime r <= hi)%Z) (results w) ->
      (lo <= avgReaction w <= hi)%Z)
  /\ (forall lo hi,
      (exists r, In r (results w) /\ failed r = false) ->
      Forall (fun r => failed r = false -> (lo <= txTime r <= hi)%Z) (results w) ->
      (lo <= avgTx w <= hi)%Z)
  /\ (Forall (fun r => failed r = true) (results w) ->
      avgTx w = 0%Z /\ avgTotal w = avgReaction w).
Proof.
  split; [| split; [| split]].
  - intros E. unfold avgTotal, avgReaction, avgTx, successfulResults.
    rewrite E. repeat split.
  - intros lo hi Hne H. unfold avgReaction.
    destruct (results w) as [| r l] eqn:E; [congruence |].
    cbn [List.length Nat.ltb Nat.leb].
    apply rounded_mean_bounds; [simpl; lia |].
    pose proof (sum_bounds reactionTime lo hi (r :: l) 0%Z H) as B.
    cbn [List.length] in B. lia.
  - intros lo hi [r [Hin Hf]] H. unfold avgTx.
    assert (Hs : Forall (fun r => (lo <= txTime r <= hi)%Z) (successfulResults w)).
    { apply Forall_forall. intros x Hx. unfold successfulResults in Hx.
      apply filter_In in Hx. destruct Hx as [Hx Hfx].
      apply (proj1 (Forall_forall _ _) H x Hx). now apply negb_true_iff in Hfx. }
    assert (Hin' : In r (successfulResults w)).
    { unfold successfulResults. apply filter_In. split; [exact Hin |]. now rewrite Hf. }
    destruct (successfulResults w) as [| r' l] eqn:E; [destruct Hin' |].
    cbn [List.length Nat.ltb Nat.leb].
    apply rounded_mean_bounds; [simpl; lia |].
    pose proof (sum_bounds txTime lo hi (r' :: l) 0%Z Hs) as B.
    cbn [List.length] in B. lia.
  - intros H.
    assert (E : successfulResults w = []).
    { unfold successfulResults. apply filter_none. intros r Hr.
      now rewrite (proj1 (Forall_forall _ _) H r Hr). }
    unfold avgTotal, avgTx. rewrite E. simpl. split; [reflexivity | lia].
Qed.

(** ** The shortened address *)

Lemma length_append (a b : string) :
  String.length (a ++ b) = String.length a + String.length b.
Proof. induction a as [| c a IH]; simpl; [reflexivity | now rewrite IH]. Qed.

Lemma length_substring n m (s : string) :
  String.length (substring n m s) = Nat.min m (String.length s - n).
Proof.
  revert n m. induction s as [| c s IH]; intros n m.
  - destruct n, m; simpl; lia.
  - destruct n as [| n].
    + destruct m as [| m]; [reflexivity |]. simpl. rewrite IH. simpl.
      now rewrite Nat.sub_0_r.
    + simpl. apply IH.
Qed.

Lemma substring_prefix (a t : string) :
  substring 0 (String.length a) (a ++ t) = a.
Proof. induction a as [| c a IH]; simpl; [now destruct t | now rewrite IH]. Qed.

Lemma substring_skip (a t : string) m :
  substring (String.length a) m (a ++ t) = substring 0 m t.
Proof. induction a as [| c a IH]; simpl; [reflexivity | exact IH]. Qed.

Lemma substring_whole (b : string) :
  substring 0 (String.length b) b = b.
Proof. induction b as [| c b IH]; simpl; [reflexivity | now rewrite IH]. Qed.

Lemma append_assoc (a b c : string) : ((a ++ b) ++ c = a ++ (b ++ c))%string.
Proof. induction a as [| x a IH]; simpl; [reflexivity | now rewrite IH]. Qed.

(** X12.  [shortenAddress] keeps the first six and the last four
    characters of a string of ten or more and puts three dots between
    them.  Its result has [min(6, n) + 3 + min(4, n)] characters for an
    input of [n], so it is shorter than the input only for inputs longer
    than 13 characters, and it is the three dots alone for the empty
    string. *)
Theorem shortenAddress_shape :
  (forall a mid b : string,
      String.length a = 6 -> String.length b = 4 ->
      shortenAddress (a ++ mid ++ b) = (a ++ "..." ++ b)%string)
  /\ (forall s : string,
      String.length (shortenAddress s)
      = Nat.min 6 (String.length s) + 3 + Nat.min 4 (String.length s))
  /\ (forall s : string,
      String.length (shortenAddress s) < String.length s <-> 13 < String.length s)
  /\ shortenAddress EmptyString = "..."%string.
Proof.
  assert (Hlen : forall s : string,
             String.length (shortenAddress s)
             = Nat.min 6 (String.length s) + 3 + Nat.min 4 (String.length s)).
  { intros s. unfold shortenAddress, sliceTo, sliceLast.
    rewrite !length_append, !length_substring. cbn [String.length]. lia. }
  split; [| split; [exact Hlen | split; [| reflexivity]]].
  - intros a mid b Ha Hb. unfold shortenAddress, sliceTo, sliceLast.
    f_equal.
    + rewrite <- Ha. apply substring_prefix.
    + f_equal. rewrite <- append_assoc.
      replace (String.length ((a ++ mid) ++ b) - 4)
        with (String.length (a ++ mid)%string)
        by (rewrite (length_append (a ++ mid) b), Hb; lia).
      rewrite substring_skip, <- Hb. apply substring_whole.
  - intros s. rewrite Hlen. lia.
Qed.

(** ** The transaction being broadcast *)

Lemma FlightInv_step ev w :
  SessionInv w -> FlightInv w -> FlightInv (step ev w).
Proof.
  intros I F. destruct ev as [env | now | k rejects | outcome env | o]; simpl.
  - unfold handleClick.
    destruct (isReady w); cbn [negb]; [| exact F].
    destruct (gameState w); try exact F.
    destruct (getNextTransaction _) as [e | [tx w']] eqn:E.
    + destruct (5 <=? currentRound w); exact F.
    + apply getNextTransaction_inr in E. destruct E as (Hlt & -> & ->).
      destruct (taken_frame (setGameState CLICKED (setClickTime (eNow env) w)))
        as (Et & _ & Ec & _).
      intros b Hb. simpl_world. injection Hb as <-. cbn [bSignedTx].
      rewrite Et, Ec. simpl_world. split; [lia |].
      f_equal. lia.
  - unfold checkTime. destruct (animFrame w) as [f |]; [| exact F].
    destruct (Number_ge _ _); exact F.
  - intros b Hb.
    assert (Hb' : inFlightTx w = Some b).
    { revert Hb. unfold refillSettled.
      destruct (nth_error (refills w) k) as [p |]; [| trivial].
      destruct (settled p); trivial.
      destruct (preSignBatch_resume _ _ _ _) as [e | w'] eqn:E; [trivial |].
      apply preSignBatch_resume_inr in E. destruct E as [-> _]. trivial. }
    destruct (F b Hb') as [Hc Htx].
    destruct (refillSettled_frame k rejects w) as (_ & Ec & _).
    destruct (refillSettled_transactions k rejects w) as [new Hn].
    rewrite Ec, Hn. split; [exact Hc |].
    rewrite nth_error_app1; [exact Htx |].
    pose proof (ri_cursor _ _ I). lia.
  - unfold broadcastSettled. destruct (inFlightTx w) as [b |] eqn:B; [| exact F].
    destruct outcome; destruct (5 <=? bRound b); intros b' Hb'; discriminate.
  - intros b Hb. exfalso.
    destruct (init_frame o (SinglePlayer w)) as (_ & _ & _ & _ & Eb & _).
    rewrite Eb in Hb. discriminate.
Qed.

Lemma Reachable_FlightInv w : Reachable w -> FlightInv w.
Proof.
  induction 1 as [o | ev w R IH _].
  - intros b Hb. exfalso.
    destruct (init_frame o World0) as (_ & _ & _ & _ & Eb & _).
    rewrite Eb in Hb. discriminate.
  - apply FlightInv_step; [now apply Reachable_SessionInv | exact IH].
Qed.

(** X13.  In every state of a page load, a broadcast is awaited only in
    the clicked state of the round it belongs to, and what is being
    broadcast is the entry taken last, the signed bytes of a request of
    value zero to the account itself; until the component is mounted a
    second time that request is the one with nonce
    [baseNonce + currentIndex - 1]. *)
Theorem broadcast_is_last_taken w b :
  Reachable w -> inFlightTx w = Some b ->
  gameState w = CLICKED
  /\ bRound b = currentRound w
  /\ 1 <= currentIndex (preSignedPool w)
  /\ (exists req,
       bSignedTx b = Some (signTransaction req)
       /\ nth_error (transactions (preSignedPool w)) (currentIndex (preSignedPool w) - 1)
          = Some (signTransaction req)
       /\ to req = address /\ value req = 0%N)
  /\ (FirstMount w ->
      exists req,
        bSignedTx b = Some (signTransaction req)
        /\ nth_error (transactions (preSignedPool w)) (currentIndex (preSignedPool w) - 1)
           = Some (signTransaction req)
        /\ nonce req + 1 = baseNonce (preSignedPool w) + currentIndex (preSignedPool w)
        /\ to req = address /\ value req = 0%N).
Proof.
  intros R Hb.
  destruct (Reachable_RoundInv w R) as [_ [Hc | Hn]]; [| congruence].
  destruct (Reachable_GameInv w R) as (_ & _ & Hst). rewrite Hc in Hst.
  destruct Hst as (_ & _ & b0 & Hb0 & Hbr).
  assert (b0 = b) by congruence. subst b0.
  destruct (Reachable_FlightInv w R b Hb) as [Hpos Htx].
  pose proof (Reachable_SessionInv w R) as I.
  split; [exact Hc |]. split; [exact Hbr |]. split; [exact Hpos |].
  destruct (nth_error (transactions (preSignedPool w))
              (currentIndex (preSignedPool w) - 1)) as [e |] eqn:He.
  2: { apply nth_error_None in He. pose proof (ri_cursor _ _ I). lia. }
  split.
  - destruct (proj1 (Forall_forall _ _) (ri_signed _ _ I) e (nth_error_In _ _ He))
      as (req & -> & Ht & Hv).
    exists req. now repeat split.
  - intros RF. pose proof (FirstMount_PoolInv w RF) as IP.
    exists (entryRequest (gasPrice w) (gasLimit w) (baseNonce (preSignedPool w))
              (currentIndex (preSignedPool w) - 1)).
    rewrite (PoolInv_entry w _ e IP He) in *.
    split; [exact Htx |]. split; [reflexivity |].
    split; [rewrite entryRequest_nonce; lia | now split].
Qed.

End Properties.

(** ** The properties on the sample runs *)

Lemma sampleRefilling_reachable : Reachable sampleAddress sampleSign sampleRefilling.
Proof.
  apply Reachable_run; [apply notMount_all; vm_compute; reflexivity |].
  apply reach_mount.
Qed.

Lemma sampleGreen_reachable : Reachable sampleAddress sampleSign sampleGreen.
Proof.
  apply Reachable_run; [apply notMount_all; vm_compute; reflexivity |].
  apply reach_mount.
Qed.

Lemma sampleRefilled_reachable : Reachable sampleAddress sampleSign sampleRefilled.
Proof.
  apply Reachable_run; [apply notMount_all; vm_compute; reflexivity |].
  apply reach_mount.
Qed.

(** The rejected refill of the sample game: the guard stays set for good
    and the pool keeps its ten entries; the five calls that take
    [currentIndex] to 10 start no refill, and the next call throws. *)
Lemma rejected_refill_witness :
  hasTriggeredRefill
    (preSignedPool (refillSettled sampleSign 0 (fun _ => true) sampleRefilling)) = true
  /\ List.length
       (transactions
          (preSignedPool (refillSettled sampleSign 0 (fun _ => true) sampleRefilling)))
     = 10
  /\ (forall evs,
      hasTriggeredRefill
        (preSignedPool
           (run sampleAddress sampleSign evs
              (refillSettled sampleSign 0 (fun _ => true) sampleRefilling))) = true)
  /\ (let r :=
        takeMany sampleAddress 5
          (refillSettled sampleSign 0 (fun _ => true) sampleRefilling) in
      snd r = None
      /\ currentIndex (preSignedPool (snd (fst r))) = 10
      /\ map settled (refills (snd (fst r))) = [Rejected]
      /\ getNextTransaction sampleAddress (snd (fst r)) = inl NoPreSignedTransactions).
Proof.
  assert (Hk : nth_error (refills sampleRefilling) 0 = Some sampleRefill)
    by (vm_compute; reflexivity).
  destruct (rejected_refill_keeps_guard sampleAddress sampleSign sampleRefilling 0
              sampleRefill (fun _ => true) 0 sampleRefilling_reachable Hk eq_refl
              (Nat.lt_0_succ 9) eq_refl)
    as (Ht & Hg & _ & Hrun & _).
  split; [exact Hg |]. split; [| split].
  - rewrite Ht. vm_compute. reflexivity.
  - intros evs. exact (proj1 (Hrun evs)).
  - vm_compute. repeat split.
Defined.

(** On the primed sample pool ten calls return its ten entries and the
    eleventh throws. *)
Lemma take_contract_witness :
  exists w',
    takeMany sampleAddress 10 sampleWorld
    = (map Some (transactions (preSignedPool sampleWorld)), w', None)
    /\ getNextTransaction sampleAddress w' = inl NoPreSignedTransactions.
Proof.
  exact (proj2 (proj2
    (proj2 (proj2 (take_contract sampleAddress sampleSign)) sampleWorld
       (Nat.le_0_l 10)))).
Defined.

(** The scenario of the initial batch on the sample mount effect; and,
    after the refill of the sample game was rejected and nine entries are
    used, the call that takes [currentIndex] to 10: no refill is in
    flight and none is started. *)
Lemma refill_trigger_witness :
  (exists w5 p,
      takeMany sampleAddress 5 sampleWorld
      = (map (fun k => Some (sampleSign (request sampleAddress 3%N 21064%N 7 k)))
           (seq 0 5), w5, None)
      /\ refills w5 = [p]
      /\ settled p = Pending
      /\ List.length (requests p) = 10
      /\ map nonce (requests p) = seq 17 10)
  /\ (let w :=
        run sampleAddress sampleSign sampleNinth
          (refillSettled sampleSign 0 (fun _ => true) sampleRefilling) in
      getNextTransaction sampleAddress w
      = inr (Some "0xf8100x0a"%string, taken sampleAddress w)
      /\ currentIndex (preSignedPool (taken sampleAddress w)) = 10
      /\ filter isPending (refills w) = []
      /\ refills (taken sampleAddress w) = refills w).
Proof.
  split.
  - exact (proj2 (proj2
      (proj1 (proj2 (refill_trigger sampleAddress sampleSign)) sampleOutcome 7 3%N
         21064%N eq_refl eq_refl eq_refl (fun i _ => eq_refl)))).
  - cbv zeta.
    assert (E : getNextTransaction sampleAddress
                  (run sampleAddress sampleSign sampleNinth
                     (refillSettled sampleSign 0 (fun _ => true) sampleRefilling))
                = inr (Some "0xf8100x0a"%string,
                       taken sampleAddress
                         (run sampleAddress sampleSign sampleNinth
                            (refillSettled sampleSign 0 (fun _ => true)
                               sampleRefilling))))
      by (vm_compute; reflexivity).
    assert (Hk : nth_error (refills sampleRefilling) 0 = Some sampleRefill)
      by (vm_compute; reflexivity).
    destruct (proj2 (proj2 (proj2 (proj2 (refill_trigger sampleAddress sampleSign))))
                sampleRefilling 0 sampleRefill (fun _ => true) 0 sampleNinth _ _
                sampleRefilling_reachable Hk eq_refl (Nat.lt_0_succ 9) eq_refl E)
      as (Hp & _ & _ & Hr).
    split; [exact E |]. split; [vm_compute; reflexivity |].
    split; [exact Hp | exact Hr].
Defined.

Lemma samplePlayed_reachable : Reachable sampleAddress sampleSign samplePlayed.
Proof.
  apply Reachable_run; [apply notMount_all; vm_compute; reflexivity |].
  apply reach_mount.
Qed.

Lemma sampleRemounted_reachable : Reachable sampleAddress sampleSign sampleRemounted.
Proof.
  apply reach_step; [exact samplePlayed_reachable |].
  change (baseNonce (preSignedPool samplePlayed) <= 8).
  assert (E : baseNonce (preSignedPool samplePlayed) = 7) by (vm_compute; reflexivity).
  rewrite E. lia.
Qed.

(** The sample game left after its first round and entered again, the
    count read being 8: [baseNonce] is 8 while the entry at index 0 is the
    one signed for nonce 7; the new batch starts at index 10 with an entry
    signed for nonce 8, which the entry at index 1 carries already; and
    the calls that use up the old batch return the nonces 8 to 16 and then
    8 again. *)
Lemma sequence_numbers_witness :
  baseNonce (preSignedPool sampleRemounted) = 8
  /\ currentIndex (preSignedPool sampleRemounted) = 1
  /\ nth_error (transactions (preSignedPool sampleRemounted)) 0
     = Some "0xf8070x01"%string
  /\ nth_error (transactions (preSignedPool sampleRemounted)) 1
     = Some "0xf8080x02"%string
  /\ nth_error (transactions (preSignedPool sampleRemounted)) 10
     = Some "0xf8080x01"%string
  /\ fst (fst (takeMany sampleAddress 10 sampleRemounted))
     = map Some
         ["0xf8080x02"; "0xf8090x03"; "0xf80a0x04"; "0xf80b0x05"; "0xf80c0x06";
          "0xf80d0x07"; "0xf80e0x08"; "0xf80f0x09"; "0xf8100x0a";
          "0xf8080x01"]%string.
Proof.
  pose proof (proj1 (proj2 (sequence_numbers_until_remount sampleAddress sampleSign))
                samplePlayed sampleRecount 8 3%N 21064%N eq_refl eq_refl eq_refl
                (fun i _ => eq_refl)) as H.
  cbv zeta in H. destruct H as (Hb & Hc & _ & Hold & Hnew).
  fold sampleRemounted in Hb, Hc, Hold, Hnew.
  assert (Hlen : List.length (transactions (preSignedPool samplePlayed)) = 10)
    by (vm_compute; reflexivity).
  rewrite Hlen in Hold, Hnew.
  split; [exact Hb |].
  split; [rewrite Hc; vm_compute; reflexivity |].
  split; [rewrite (Hold 0) by lia; vm_compute; reflexivity |].
  split; [rewrite (Hold 1) by lia; vm_compute; reflexivity |].
  split; [| vm_compute; reflexivity].
  destruct (Hnew 0 (Nat.lt_0_succ 9)) as (H10 & _).
  change (10 + 0) with 10 in H10. rewrite H10. vm_compute. reflexivity.
Defined.

(** [baseNonce] is 7 after the first mount of the sample game and after
    its first round, and 8 once the component has been mounted again. *)
Lemma frame_conditions_counterexample :
  Reachable sampleAddress sampleSign samplePlayed
  /\ Reachable sampleAddress sampleSign sampleRemounted
  /\ baseNonce (preSignedPool sampleWorld) = 7
  /\ baseNonce (preSignedPool samplePlayed) = 7
  /\ baseNonce (preSignedPool sampleRemounted) = 8.
Proof.
  split; [exact samplePlayed_reachable |].
  split; [exact sampleRemounted_reachable |].
  repeat split; vm_compute; reflexivity.
Qed.


(** A failed broadcast in round 1 of the sample game, with a stray click
    while it is awaited. *)
Lemma broadcast_failure_witness :
  results
    (broadcastSettled (inl BroadcastRejected) (at_ 5000)
       (run sampleAddress sampleSign [Click (at_ 3251)]
          (handleClick sampleAddress (at_ 3250) sampleGreen)))
  = [mkResult 1 150 0 150 true]
  /\ gameState
       (broadcastSettled (inl BroadcastRejected) (at_ 5000)
          (run sampleAddress sampleSign [Click (at_ 3251)]
             (handleClick sampleAddress (at_ 3250) sampleGreen)))
     = WAITING.
Proof.
  assert (Hlt : currentIndex (preSignedPool sampleGreen)
                < List.length (transactions (preSignedPool sampleGreen)))
    by (vm_compute; lia).
  assert (Hevs : Forall notBroadcast [Click (at_ 3251)])
    by (repeat constructor).
  assert (Hmnt : Forall notMount [Click (at_ 3251)])
    by (repeat constructor).
  destruct (broadcast_failure_recorded sampleAddress sampleSign sampleGreen
              (at_ 3250) [Click (at_ 3251)] BroadcastRejected (at_ 5000)
              sampleGreen_reachable eq_refl eq_refl Hlt Hevs Hmnt)
    as (_ & _ & Hres & _ & Hnext & _).
  split.
  - rewrite Hres. vm_compute. reflexivity.
  - apply Hnext. vm_compute. lia.
Defined.

(** A mount effect whose gas estimate fails, followed by clicks. *)
Lemma failed_init_witness :
  isReady
    (run sampleAddress sampleSign
       [Click (at_ 0); AnimationFrame 3000; Click (at_ 3250)]
       (init sampleAddress sampleSign sampleFailedOutcome World0)) = false
  /\ console
       (run sampleAddress sampleSign
          [Click (at_ 0); AnimationFrame 3000; Click (at_ 3250)]
          (init sampleAddress sampleSign sampleFailedOutcome World0))
     = [ErrFailedToInitialize QueryRejected].
Proof.
  assert (F : initFails sampleFailedOutcome).
  { right. right. left. exists QueryRejected. reflexivity. }
  assert (Hm : Forall notMount [Click (at_ 0); AnimationFrame 3000; Click (at_ 3250)])
    by (repeat constructor).
  destruct (failed_init_never_ready sampleAddress sampleSign sampleFailedOutcome
              [Click (at_ 0); AnimationFrame 3000; Click (at_ 3250)] F Hm)
    as ((Hw & Hr & _) & _).
  split; [exact Hr |]. rewrite Hw. reflexivity.
Defined.

(** The first call on the primed sample pool returns its first entry. *)
Lemma getNextTransaction_defined_witness :
  exists tx,
    nth_error (transactions (preSignedPool sampleWorld)) 0 = Some tx
    /\ tx = "0xf8070x01"%string.
Proof.
  assert (E : getNextTransaction sampleAddress sampleWorld
              = inr (Some "0xf8070x01"%string, taken sampleAddress sampleWorld))
    by (vm_compute; reflexivity).
  destruct (getNextTransaction_defined sampleAddress sampleSign sampleWorld _ _ E)
    as (_ & tx & Hv & Hn & _).
  exists tx. split; [exact Hn | congruence].
Defined.

Lemma sampleWaiting_reachable : Reachable sampleAddress sampleSign sampleWaiting.
Proof.
  apply Reachable_run; [apply notMount_all; vm_compute; reflexivity |].
  apply reach_mount.
Qed.

Lemma sampleExhausted_reachable : Reachable sampleAddress sampleSign sampleExhausted.
Proof.
  apply Reachable_run; [apply notMount_all; vm_compute; reflexivity |].
  apply reach_mount.
Qed.

(** The primed sample pool has its ten entries in stock; the used-up pool
    throws with the guard set. *)
Lemma exhausted_only_with_guard_set_witness :
  getNextTransaction sampleAddress sampleExhausted = inl NoPreSignedTransactions
  /\ hasTriggeredRefill (preSignedPool sampleExhausted) = true.
Proof.
  assert (E : getNextTransaction sampleAddress sampleExhausted
              = inl NoPreSignedTransactions) by (vm_compute; reflexivity).
  split; [exact E |].
  exact (proj2 (exhausted_only_with_guard_set sampleAddress sampleSign sampleExhausted
                  sampleExhausted_reachable eq_refl) _ E).
Defined.

(** The finished sample game has the attempts 1 to 5. *)
Lemma game_bookkeeping_witness :
  map attempt (results sampleRefilling) = [1; 2; 3; 4; 5]
  /\ currentRound sampleRefilling = 5.
Proof.
  destruct (game_bookkeeping sampleAddress sampleSign sampleRefilling
              sampleRefilling_reachable) as (Ha & _ & _ & _ & Hf & _).
  destruct (Hf eq_refl) as [Hl Hr].
  split; [| exact Hr]. rewrite Ha, Hl. reflexivity.
Defined.

(** A click one second into the wait of the sample game. *)
Lemma too_early_click_witness :
  gameState (handleClick sampleAddress (at_ 1000) sampleWaiting) = TOO_EARLY
  /\ checkTime 3000 (handleClick sampleAddress (at_ 1000) sampleWaiting)
     = handleClick sampleAddress (at_ 1000) sampleWaiting.
Proof.
  destruct (too_early_click sampleAddress (at_ 1000) sampleWaiting eq_refl eq_refl)
    as (Hs & _ & _ & _ & _ & _ & _ & _ & Hc & _).
  split; [exact Hs | exact (Hc 3000%Q)].
Defined.



(** A click on the green box of the used-up sample pool. *)
Lemma exhausted_click_witness :
  results (handleClick sampleAddress (at_ 43120) sampleExhausted)
  = [mkResult 1 20 0 20 true]
  /\ gameState (handleClick sampleAddress (at_ 43120) sampleExhausted) = WAITING
  /\ inFlightTx (handleClick sampleAddress (at_ 43120) sampleExhausted) = None.
Proof.
  assert (Hle : List.length (transactions (preSignedPool sampleExhausted))
                <= currentIndex (preSignedPool sampleExhausted))
    by (vm_compute; lia).
  destruct (exhausted_click_recorded sampleAddress (at_ 43120) sampleExhausted
              eq_refl eq_refl Hle) as (Hres & _ & Hb & _ & _ & Hn & _).
  split; [| split].
  - rewrite Hres. vm_compute. reflexivity.
  - apply Hn. vm_compute. lia.
  - rewrite Hb. vm_compute. reflexivity.
Defined.



(** The broadcast awaited after the first valid click of the sample game
    carries the first entry. *)
Lemma broadcast_is_last_taken_witness :
  exists b,
    inFlightTx (step sampleAddress sampleSign (Click (at_ 3250)) sampleGreen) = Some b
    /\ bRound b = 1.
Proof.
  assert (Hb : inFlightTx (step sampleAddress sampleSign (Click (at_ 3250)) sampleGreen)
               = Some (mkBroadcast 1 150 3250 (Some "0xf8070x01"%string)))
    by (vm_compute; reflexivity).
  destruct (broadcast_is_last_taken sampleAddress sampleSign _ _
              (reach_step sampleAddress sampleSign (Click (at_ 3250)) sampleGreen
                 sampleGreen_reachable I) Hb) as (_ & Hr & _).
  eexists. split; [exact Hb |]. rewrite Hr. vm_compute. reflexivity.
Defined.
